(** * jpeg-recompress: the SSIM metric and the quality search of [ssim.go]

    A shallow embedding of the Go program: the global SSIM statistics
    ([mean], [stdev], [covar], [ssim]), the candidate evaluation ([compare]),
    the argument check ([checkArgs]), the search loop of [main] and the
    selection of the output, followed by the properties of the program. *)

From Stdlib Require Import ZArith List String Bool Lia Reals Lra Sorted.
From Stdlib Require PrimFloat Uint63.
Import ListNotations.

Open Scope Z_scope.

(** ** Go's [int] and [int64]

    Both are 64 bits wide on the platforms the program is built for; signed
    overflow wraps around (two's complement). *)

Module GoInt.

Definition max_int : Z := 2 ^ 63 - 1.
Definition min_int : Z := - 2 ^ 63.

Definition wrap (z : Z) : Z := (z + 2 ^ 63) mod 2 ^ 64 - 2 ^ 63.

Definition add (a b : Z) : Z := wrap (a + b).
Definition sub (a b : Z) : Z := wrap (a - b).
Definition mul (a b : Z) : Z := wrap (a * b).
(** Go's [/] on integers truncates toward zero. *)
Definition quot (a b : Z) : Z := wrap (Z.quot a b).

End GoInt.

(** ** The arithmetic of [float64]

    The program computes on [float64].  Its operations are taken through an
    interface with two instances: the real numbers (exact arithmetic) and
    IEEE 754 binary64 (what the machine computes). *)

Class Float64 (F : Type) : Type := {
  f_ofZ  : Z -> F;            (* float64(n) *)
  f_add  : F -> F -> F;
  f_sub  : F -> F -> F;
  f_mul  : F -> F -> F;
  f_div  : F -> F -> F;
  f_sqrt : F -> F;            (* math.Sqrt *)
  f_ltb  : F -> F -> bool;    (* a < b  *)
  f_leb  : F -> F -> bool     (* a <= b *)
}.

Definition Rltb (a b : R) : bool := if Rlt_dec a b then true else false.
Definition Rleb (a b : R) : bool := if Rle_dec a b then true else false.

#[export] Instance Exact : Float64 R := {
  f_ofZ := IZR;
  f_add := Rplus;
  f_sub := Rminus;
  f_mul := Rmult;
  f_div := Rdiv;
  f_sqrt := sqrt;
  f_ltb := Rltb;
  f_leb := Rleb
}.

(** Conversion of an [int] to binary64, for [|z| < 2^63]. *)
Definition float_ofZ (z : Z) : PrimFloat.float :=
  if z <? 0
  then PrimFloat.opp (PrimFloat.of_uint63 (Uint63.of_Z (- z)))
  else PrimFloat.of_uint63 (Uint63.of_Z z).

#[export] Instance IEEE : Float64 PrimFloat.float := {
  f_ofZ := float_ofZ;
  f_add := PrimFloat.add;
  f_sub := PrimFloat.sub;
  f_mul := PrimFloat.mul;
  f_div := PrimFloat.div;
  f_sqrt := PrimFloat.sqrt;
  f_ltb := PrimFloat.ltb;
  f_leb := PrimFloat.leb
}.

(** ** Errors and the external collaborators *)

(** An [error] value, identified by its message. *)
Definition error : Type := string.

(** A pixel, as the four 16-bit channels that [Color.RGBA()] returns. *)
Record Color : Type := mkColor { cR : Z; cG : Z; cB : Z; cA : Z }.

(** An [image.Image]: its bounds and its [At] method. *)
Record Image : Type := mkImage {
  minX : Z; minY : Z;
  maxX : Z; maxY : Z;
  At : Z -> Z -> Color
}.

(** The packages the program calls: [image/jpeg] and [image/color]. *)
Class Codec : Type := {
  jpegEncode : Image -> Z -> error + list Byte.byte;   (* jpeg.Encode *)
  jpegDecode : list Byte.byte -> error + Image;        (* jpeg.Decode *)
  grayModelConvert : Color -> Color                    (* color.GrayModel.Convert *)
}.

(** [x] ranges over [0 .. n-1], in this order. *)
Definition upto (n : Z) : list Z := map Z.of_nat (seq 0 (Z.to_nat n)).

Section Metric.

Context {F : Type} {FL : Float64 F} {CD : Codec}.

Definition zero : F := f_ofZ 0.

(** [math.Pow(x, 2.0)]: the square of [x]. *)
Definition pow2 (x : F) : F := f_mul x x.

(** The default SSIM constants.  The literals 0.01 and 0.03 are the
    quotients 1/100 and 3/100. *)
Definition L : F := f_ofZ 255.
Definition K1 : F := f_div (f_ofZ 1) (f_ofZ 100).
Definition K2 : F := f_div (f_ofZ 3) (f_ofZ 100).
Definition C1 : F := pow2 (f_mul K1 L).
Definition C2 : F := pow2 (f_mul K2 L).

Definition encodeToJPEGBytes (img : Image) (quality : Z)
  : list Byte.byte * option error :=
  match jpegEncode img quality with
  | inl err => ([], Some err)
  | inr buf => (buf, None)
  end.

Definition dim (img : Image) : Z * Z := (maxX img, maxY img).

(** [image.NewGray(bounds)] followed by [Set(x, y, gray)] for
    [0 <= x < w], [0 <= y < h]: [Set] ignores a point outside the bounds, and
    a pixel that was not set is [Gray{0}], whose channels are
    [(0, 0, 0, 0xffff)]. *)
Definition inBounds (img : Image) (x y : Z) : bool :=
  (minX img <=? x) && (x <? maxX img) && (minY img <=? y) && (y <? maxY img).

Definition convertToGray (originalImg : Image) : Image :=
  let '(w, h) := dim originalImg in
  {| minX := minX originalImg; minY := minY originalImg;
     maxX := maxX originalImg; maxY := maxY originalImg;
     At := fun x y =>
       if inBounds originalImg x y && (0 <=? x) && (x <? w) && (0 <=? y) && (y <? h)
       then grayModelConvert (At originalImg x y)
       else mkColor 0 0 0 65535 |}.

Definition getPixVal (c : Color) : F := f_ofZ (Z.shiftr (cR c) 8).

Definition equalDim (img1 img2 : Image) : bool :=
  let '(w1, h1) := dim img1 in
  let '(w2, h2) := dim img2 in
  (w1 =? w2) && (h1 =? h2).

(** The two nested loops [for x := 0; x < w; x++ { for y := 0; y < h; y++ {
    sum += term x y } }], started from [sum]. *)
Definition pixelLoop (w h : Z) (term : Z -> Z -> F) (sum : F) : F :=
  fold_left
    (fun acc x => fold_left (fun acc' y => f_add acc' (term x y)) (upto h) acc)
    (upto w) sum.

(** [float64((w * h) - 1)] *)
Definition nMinus1 (w h : Z) : F := f_ofZ (GoInt.sub (GoInt.mul w h) 1).

Definition mean (img : Image) : F :=
  let '(w, h) := dim img in
  let n := nMinus1 w h in
  let sum := pixelLoop w h (fun x y => getPixVal (At img x y)) zero in
  f_div sum n.

Definition stdev (img : Image) : F :=
  let '(w, h) := dim img in
  let n := nMinus1 w h in
  let avg := mean img in
  let sum :=
    pixelLoop w h (fun x y => pow2 (f_sub (getPixVal (At img x y)) avg)) zero in
  f_sqrt (f_div sum n).

Definition errDimension : error := "images must have same dimension"%string.

Definition covar (img1 img2 : Image) : F * option error :=
  if negb (equalDim img1 img2) then (zero, Some errDimension)
  else
    let avg1 := mean img1 in
    let avg2 := mean img2 in
    let '(w, h) := dim img1 in
    let n := nMinus1 w h in
    let sum :=
      pixelLoop w h
        (fun x y =>
           f_mul (f_sub (getPixVal (At img1 x y)) avg1)
                 (f_sub (getPixVal (At img2 x y)) avg2))
        zero in
    (f_div sum n, None).

Definition two : F := f_ofZ 2.

Definition ssim (x y : Image) : F :=
  let avgX := mean x in
  let avgY := mean y in
  let stdevX := stdev x in
  let stdevY := stdev y in
  match covar x y with
  | (_, Some _) => zero
  | (cov, None) =>
      let numerator :=
        f_mul (f_add (f_mul (f_mul two avgX) avgY) C1)
              (f_add (f_mul two cov) C2) in
      let denominator :=
        f_mul (f_add (f_add (pow2 avgX) (pow2 avgY)) C1)
              (f_add (f_add (pow2 stdevX) (pow2 stdevY)) C2) in
      f_div numerator denominator
  end.

(** [compare] returns [(index, raw, err)]. *)
Definition compare (original : Image) (quality : Z)
  : F * list Byte.byte * option error :=
  match encodeToJPEGBytes original quality with
  | (raw, Some err) => (zero, raw, Some err)
  | (raw, None) =>
      match jpegDecode raw with
      | inl err => (zero, raw, Some err)
      | inr decoded => (ssim original (convertToGray decoded), raw, None)
      end
  end.

End Metric.

(** ** The operating system, as the program sees it *)

Record World : Type := mkWorld {
  statNotExist : string -> bool;      (* os.Stat(p): os.IsNotExist(err) *)
  statOk : string -> bool;            (* os.Stat(p): err == nil *)
  readImage : string -> error + Image;
  getFilesize : string -> Z * option error;
  isJpeg : string -> bool;
  osCreate : string -> option error;  (* os.Create(p): the error, if any *)
  (* f.Write(data): how many bytes reached the file, and the error, if any *)
  fileWrite : string -> list Byte.byte -> nat * option error;
  copyFile : string -> string -> Z * option error
}.

(** What a run prints, logs and does to the file system. *)
Inductive Event (F : Type) : Type :=
| PrintUsage
| PrintError (msg : string)          (* "* Error: " msg, on stderr *)
| PrintOriginalSize (size : Z)
| PrintAttempt (attempt q : Z) (index : F) (size : Z)
| PrintFinal (q : Z) (index : F) (size : Z)
| PrintNoMatchNotSaving
| PrintNoMatchCopy
| PrintNoMatchFallback
| LogPrintln (err : error)
| FileCreated (p : string)
| FileWritten (p : string) (data : list Byte.byte)
| FileCopied (src dest : string).

Arguments PrintUsage {F}.
Arguments PrintError {F} msg.
Arguments PrintOriginalSize {F} size.
Arguments PrintAttempt {F} attempt q index size.
Arguments PrintFinal {F} q index size.
Arguments PrintNoMatchNotSaving {F}.
Arguments PrintNoMatchCopy {F}.
Arguments PrintNoMatchFallback {F}.
Arguments LogPrintln {F} err.
Arguments FileCreated {F} p.
Arguments FileWritten {F} p data.
Arguments FileCopied {F} src dest.

(** How a run ends. *)
Inductive Exit : Type :=
| Returned              (* main returns: exit status 0 *)
| OsExit (code : Z)
| Panicked (msg : string)
| OutOfFuel.            (* the search loop is still running *)

(** ** [checkArgs] *)

Section CheckArgs.

Context {F : Type} {FL : Float64 F}.
Variable W : World.

Open Scope string_scope.

(** The message [checkArgs] ends with: every failed test overwrites [msg]. *)
Definition checkArgsMsg (src dest : string) (force : bool) (max min : Z)
    (target : F) (loops : Z) : string :=
  let msg := "" in
  let msg := if statNotExist W src
             then "Source image '" ++ src ++ "' does not exists." else msg in
  let msg := if negb force
             then (if statOk W dest
                   then "Destiation path '" ++ dest ++ "' already exists. Use -f to overwrite."
                   else msg)
             else msg in
  let msg := if String.eqb dest "" then "Please specify a destination path" else msg in
  let msg := if (max <? 1)%Z || (max >? 100)%Z
             then "Maximum quality has to be between 1 and 100." else msg in
  let msg := if (min <? 0)%Z || (min >? 99)%Z
             then "Minimum quality has to be between 0 and 99." else msg in
  let msg := if f_leb target zero || f_ltb (f_ofZ 1) target
             then "Target has to be between 0 and 99." else msg in
  let msg := if (loops <=? 0)%Z then "Loops has to be more than 0" else msg in
  msg.

Definition checkArgs (src dest : string) (force : bool) (max min : Z)
    (target : F) (loops : Z) : bool :=
  String.eqb (checkArgsMsg src dest force max min target loops) "".

End CheckArgs.

(** ** The search loop of [main] *)

Record State (F : Type) : Type := mkState {
  attempt : Z;
  minQ : Z;
  maxQ : Z;
  bestSize : Z;
  bestQ : Z;
  bestIndex : F;
  fallbackQ : Z;
  fallbackSize : Z;
  fallbackIndex : F
}.

Arguments mkState {F}.
Arguments attempt {F}.
Arguments minQ {F}.
Arguments maxQ {F}.
Arguments bestSize {F}.
Arguments bestQ {F}.
Arguments bestIndex {F}.
Arguments fallbackQ {F}.
Arguments fallbackSize {F}.
Arguments fallbackIndex {F}.

(** One evaluated attempt: the line the loop prints for it. *)
Record Candidate (F : Type) : Type := mkCandidate {
  quality : Z;
  index : F;
  newSize : Z
}.

Arguments mkCandidate {F}.
Arguments quality {F}.
Arguments index {F}.
Arguments newSize {F}.

Inductive Body (F : Type) : Type :=
| Break                                         (* minQ == maxQ *)
| ComparePanic                                  (* compare failed *)
| Next (c : Candidate F) (s' : State F).        (* the end of the body *)

Arguments Break {F}.
Arguments ComparePanic {F}.
Arguments Next {F} c s'.

Section Search.

Context {F : Type} {FL : Float64 F} {CD : Codec}.

Variable originalGray : Image.
Variable originalSize : Z.
Variable target : F.
Variable loops : Z.

Definition setAttempt (a : Z) (s : State F) : State F :=
  mkState a (minQ s) (maxQ s) (bestSize s) (bestQ s) (bestIndex s)
          (fallbackQ s) (fallbackSize s) (fallbackIndex s).
Definition setMinQ (v : Z) (s : State F) : State F :=
  mkState (attempt s) v (maxQ s) (bestSize s) (bestQ s) (bestIndex s)
          (fallbackQ s) (fallbackSize s) (fallbackIndex s).
Definition setMaxQ (v : Z) (s : State F) : State F :=
  mkState (attempt s) (minQ s) v (bestSize s) (bestQ s) (bestIndex s)
          (fallbackQ s) (fallbackSize s) (fallbackIndex s).
Definition setBest (sz q : Z) (i : F) (s : State F) : State F :=
  mkState (attempt s) (minQ s) (maxQ s) sz q i
          (fallbackQ s) (fallbackSize s) (fallbackIndex s).
Definition setFallbackSize (sz : Z) (s : State F) : State F :=
  mkState (attempt s) (minQ s) (maxQ s) (bestSize s) (bestQ s) (bestIndex s)
          (fallbackQ s) sz (fallbackIndex s).
Definition setFallback (sz q : Z) (i : F) (s : State F) : State F :=
  mkState (attempt s) (minQ s) (maxQ s) (bestSize s) (bestQ s) (bestIndex s)
          q sz i.

(** [var q = minQ + (maxQ-minQ)/2] *)
Definition probe (s : State F) : Z :=
  GoInt.add (minQ s) (GoInt.quot (GoInt.sub (maxQ s) (minQ s)) 2).

(** The decision rules.  [int(math.Max(float64(a), float64(b)))] is the
    larger of [a] and [b] ([math.Min]: the smaller); the conversions are
    exact on the quality levels. *)
Definition decide (c : Candidate F) (s : State F) : State F :=
  let q := quality c in
  if newSize c >=? originalSize then
    if f_ltb (index c) target then setAttempt loops s
    else setMaxQ (Z.max (GoInt.sub q 1) (minQ s)) s
  else
    if f_ltb (index c) target then setMinQ (Z.min (GoInt.add q 1) (maxQ s)) s
    else if f_ltb target (index c) then setMaxQ (Z.max (GoInt.sub q 1) (minQ s)) s
    else setAttempt loops s.

Definition updateBest (c : Candidate F) (s : State F) : State F :=
  if (newSize c <? bestSize s) && f_leb target (index c)
  then setBest (newSize c) (quality c) (index c) s
  else s.

Definition initFallback (c : Candidate F) (s : State F) : State F :=
  if fallbackSize s =? 0 then setFallbackSize (newSize c) s else s.

(** Whether one of the two branches that assign [fallbackQ] is taken. *)
Definition recordsFallback (c : Candidate F) (s : State F) : bool :=
  ((newSize c <=? originalSize) && (newSize c >? fallbackSize s))
  || ((newSize c >? originalSize) && (newSize c <? fallbackSize s)).

Definition recordFallback (c : Candidate F) (s : State F) : State F :=
  if (newSize c <=? originalSize) && (newSize c >? fallbackSize s)
  then setFallback (newSize c) (quality c) (index c) s
  else if (newSize c >? originalSize) && (newSize c <? fallbackSize s)
  then setFallback (newSize c) (quality c) (index c) s
  else s.

Definition updateFallback (c : Candidate F) (s : State F) : State F :=
  recordFallback c (initFallback c s).

(** The body of the loop, up to the increment of [attempt]. *)
Definition body (s : State F) : Body F :=
  let q := probe s in
  if minQ s =? maxQ s then Break
  else
    match compare originalGray q with
    | (_, _, Some _) => ComparePanic
    | (idx, data, None) =>
        let c := mkCandidate q idx (Z.of_nat (List.length data)) in
        Next c (updateFallback c (updateBest c (decide c s)))
    end.

(** What the loop leaves behind: the attempts it evaluated, each with the
    state it started from, and how it ended. *)
Inductive LoopEnd : Type :=
| Finished (s : State F)
| LoopPanic
| LoopOutOfFuel.

Fixpoint searchLoop (fuel : nat) (s : State F)
  : list (State F * Candidate F) * LoopEnd :=
  match fuel with
  | O => ([], LoopOutOfFuel)
  | S fuel' =>
      if attempt s <=? loops then
        match body s with
        | Break => ([], Finished s)
        | ComparePanic => ([], LoopPanic)
        | Next c s' =>
            let '(tr, e) :=
              searchLoop fuel' (setAttempt (GoInt.add (attempt s') 1) s') in
            ((s, c) :: tr, e)
        end
      else ([], Finished s)
  end.

End Search.

(** ** Writing the output and [main] *)

Record Args (F : Type) : Type := mkArgs {
  src : string;
  dest : string;
  force : bool;
  argMax : Z;         (* -max *)
  argMin : Z;         (* -min *)
  argTarget : F;      (* -t *)
  argLoops : Z;       (* -l *)
  help : bool;
  noCopy : bool
}.

Arguments mkArgs {F}.
Arguments src {F}.
Arguments dest {F}.
Arguments force {F}.
Arguments argMax {F}.
Arguments argMin {F}.
Arguments argTarget {F}.
Arguments argLoops {F}.
Arguments help {F}.
Arguments noCopy {F}.

Section Main.

Context {F : Type} {FL : Float64 F} {CD : Codec}.
Variable W : World.

(** [save] returns the error of [os.Create]; the result of [f.Write] is
    dropped.  When [os.Create] fails [f] is nil, and [Write] and [Close] on
    it do nothing. *)
Definition save (p : string) (data : list Byte.byte)
  : list (Event F) * option error :=
  match osCreate W p with
  | Some err => ([LogPrintln err], Some err)
  | None =>
      let '(n, _) := fileWrite W p data in
      ([FileCreated p; FileWritten p (firstn n data)], None)
  end.

(** The statements after the loop.  [PrintFinal] stands for the two lines
    "Final image: ..." and "...% of original, saved ...". *)
Definition selectOutcome (original : Image) (originalSize : Z)
    (a : Args F) (s : State F) : list (Event F) * Exit :=
  if bestSize s <? originalSize then
    match encodeToJPEGBytes original (bestQ s) with
    | (_, Some err) => ([], Panicked err)
    | (data, None) =>
        (fst (save (dest a) data)
           ++ [PrintFinal (bestQ s) (bestIndex s) (bestSize s)], Returned)
    end
  else if noCopy a then ([PrintNoMatchNotSaving], Returned)
  else if isJpeg W (src a) then
    match copyFile W (src a) (dest a) with
    | (_, Some err) => ([PrintNoMatchCopy], Panicked err)
    | (_, None) => ([PrintNoMatchCopy; FileCopied (src a) (dest a)], Returned)
    end
  else
    let shown :=
      [PrintNoMatchFallback;
       PrintFinal (fallbackQ s) (fallbackIndex s) (fallbackSize s)] in
    match encodeToJPEGBytes original (fallbackQ s) with
    | (_, Some err) => (shown, Panicked err)
    | (data, None) => (shown ++ fst (save (dest a) data), Returned)
    end.

Definition printAttempts (tr : list (State F * Candidate F)) : list (Event F) :=
  map (fun '(s, c) => PrintAttempt (attempt s) (quality c) (index c) (newSize c)) tr.

(** The state the loop starts from. *)
Definition initialState (a : Args F) (originalSize : Z) : State F :=
  mkState 1 (argMin a) (argMax a) originalSize 0 zero 0 0 zero.

(** [main], after the flags are parsed.  [fuel] bounds the iterations of the
    search loop. *)
Definition main (fuel : nat) (a : Args F) : list (Event F) * Exit :=
  if help a then ([PrintUsage], Returned)
  else if negb (checkArgs W (src a) (dest a) (force a) (argMax a) (argMin a)
                          (argTarget a) (argLoops a))
  then ([PrintError (checkArgsMsg W (src a) (dest a) (force a) (argMax a)
                                  (argMin a) (argTarget a) (argLoops a));
         PrintUsage], OsExit 1)
  else
    match readImage W (src a) with
    | inl err => ([], Panicked err)
    | inr original =>
        let '(originalSize, err) := getFilesize W (src a) in
        let originalGray := convertToGray original in
        match err with
        | Some e => ([], Panicked e)
        | None =>
            match searchLoop originalGray originalSize (argTarget a)
                             (argLoops a) fuel (initialState a originalSize) with
            | (tr, LoopOutOfFuel) =>
                (PrintOriginalSize originalSize :: printAttempts tr, OutOfFuel)
            | (tr, LoopPanic) =>
                (PrintOriginalSize originalSize :: printAttempts tr,
                 Panicked "Error when comparing images")
            | (tr, Finished s) =>
                let '(ev, ex) := selectOutcome original originalSize a s in
                (PrintOriginalSize originalSize :: printAttempts tr ++ ev, ex)
            end
        end
    end.

End Main.


(** * Reference definitions and sample inputs *)

(** The midpoint of the bracket as the specification words it: rounded
    toward [maxQ] when it falls between two integers. *)
Definition midpointTowardMax (lo hi : Z) : Z := (lo + hi + 1) / 2.

(** The arithmetic mean of the luminance: the sum over all pixels divided by
    the number of pixels [w * h]. *)
Definition arithmeticMean {F : Type} {FL : Float64 F} (img : Image) : F :=
  let '(w, h) := dim img in
  f_div (pixelLoop w h (fun x y => getPixVal (At img x y)) zero) (f_ofZ (w * h)).

(** The position of the bracket in a state. *)
Definition width {F : Type} (s : State F) : Z := maxQ s - minQ s.

Definition bracketOk {F : Type} (s : State F) : Prop :=
  0 <= minQ s /\ minQ s <= maxQ s /\ maxQ s <= 100.


(** The lines "[attempt] Quality = q, ... Size = ..." of a run. *)
Definition attemptLines {F : Type} (evs : list (Event F)) : list (Z * Z * Z) :=
  flat_map (fun e => match e with
                     | PrintAttempt a q _ sz => [(a, q, sz)]
                     | _ => []
                     end) evs.

(** The "Final image" lines of a run, without the index. *)
Definition finalLines {F : Type} (evs : list (Event F)) : list (Z * Z) :=
  flat_map (fun e => match e with
                     | PrintFinal q _ sz => [(q, sz)]
                     | _ => []
                     end) evs.

(** What a run left in the destination: the data of each write. *)
Definition writes {F : Type} (evs : list (Event F)) : list (list Byte.byte) :=
  flat_map (fun e => match e with
                     | FileWritten _ data => [data]
                     | _ => []
                     end) evs.

(** [color.GrayModel.Convert] of Go's [image/color]: the luma of the 16-bit
    channels, kept as 8 bits; [Gray{y}.RGBA()] is [y | y<<8] on the three
    colour channels. *)
Definition goGrayModel (c : Color) : Color :=
  let y := Z.shiftr (19595 * cR c + 38470 * cG c + 7471 * cB c + 32768) 24 in
  let y := y mod 256 in
  let y16 := Z.lor y (Z.shiftl y 8) in
  mkColor y16 y16 y16 65535.

Definition gray8 (y : Z) : Color :=
  let y16 := Z.lor y (Z.shiftl y 8) in mkColor y16 y16 y16 65535.

(** Sample images, all 2 pixels wide and 1 pixel high. *)
Definition twoPixelImage (left right : Color) : Image :=
  mkImage 0 0 2 1
    (fun x y => if (x =? 0) && (y =? 0) then left
                else if (x =? 1) && (y =? 0) then right
                else mkColor 0 0 0 0).

Definition dimPair : Image := twoPixelImage (gray8 3) (gray8 3).
Definition ramp : Image := twoPixelImage (gray8 0) (gray8 255).
Definition rampReversed : Image := twoPixelImage (gray8 255) (gray8 0).
(** An image 2 wide and 2 high. *)
Definition square : Image := mkImage 0 0 2 2 (fun _ _ => gray8 7).


(** A codec whose output length is a table of the quality; the decoder
    returns an image chosen by the length of its input. *)
Definition tableCodec (size : Z -> nat) (decoded : nat -> Image) : Codec := {|
  jpegEncode := fun _ q => inr (repeat Byte.x00 (size q));
  jpegDecode := fun raw => inr (decoded (List.length raw));
  grayModelConvert := goGrayModel
|}.

(** The size grows past the original at quality 67 and is small at 53; the
    small file decodes to a poor image. *)
Definition crossingCodec : Codec :=
  tableCodec (fun q => if q =? 67 then 150%nat
                       else if q =? 53 then 50%nat else 120%nat)
             (fun n => if (n =? 50)%nat then rampReversed else ramp).

(** Every encoding is larger than the original and decodes poorly. *)
Definition hopelessCodec : Codec :=
  tableCodec (fun _ => 150%nat) (fun _ => rampReversed).

(** Every encoding is small and decodes to the reference. *)
Definition goodCodec : Codec :=
  tableCodec (fun _ => 50%nat) (fun _ => ramp).

(** A world whose source file holds [img] in [size] bytes and is not a JPEG
    file; [create] and [written] are the results of [os.Create] and of
    [f.Write] on the destination. *)
Definition sampleWorld (img : Image) (size : Z) (create : option error)
    (written : nat -> nat * option error) : World := {|
  statNotExist := fun _ => false;
  statOk := fun _ => false;
  readImage := fun _ => inr img;
  getFilesize := fun _ => (size, None);
  isJpeg := fun _ => false;
  osCreate := fun _ => create;
  fileWrite := fun _ data => written (List.length data);
  copyFile := fun _ _ => (size, None)
|}.

Definition healthyWorld (img : Image) (size : Z) : World :=
  sampleWorld img size None (fun n => (n, None)).

(** The command line [src dest -f -max hi -min lo -t 0.5 -l loops]. *)
Definition sampleArgs {F : Type} {FL : Float64 F} (lo hi loops : Z) : Args F :=
  mkArgs "in.png"%string "out.jpg"%string true hi lo
         (f_div (f_ofZ 1) (f_ofZ 2)) loops false false.




(** How many attempts a bracket of width [w] can take: one more than the
    binary logarithm of [w], none when the bracket is collapsed. *)
Definition attemptsBound (w : Z) : nat :=
  if w <=? 0 then 0%nat else S (Z.to_nat (Z.log2 w)).

(** The state a run ended in, [d] when it did not finish. *)
Definition finalState {F : Type}
    (r : list (State F * Candidate F) * @LoopEnd F) (d : State F) : State F :=
  match snd r with Finished s => s | _ => d end.

(** An encoder that always fails. *)
Definition brokenCodec : Codec := {|
  jpegEncode := fun _ _ => inl "encode failed"%string;
  jpegDecode := fun _ => inr ramp;
  grayModelConvert := goGrayModel
|}.

(** A decoder that returns an image of another size. *)
Definition resizingCodec : Codec :=
  tableCodec (fun _ => 50%nat) (fun _ => square).

(** Small poor encodings whose size grows with the quality. *)
Definition climbingCodec : Codec :=
  tableCodec (fun q => if q =? 67 then 50%nat else 80%nat)
             (fun _ => rampReversed).

(** The runs [-min 40 -max 95 -t 0.5 -l 2] on [ramp], stored in 100 bytes. *)
Definition twoAttempts : Args PrimFloat.float := sampleArgs 40 95 2.

Definition sampleRun (CD : Codec)
  : list (State PrimFloat.float * Candidate PrimFloat.float) * LoopEnd :=
  searchLoop (CD := CD) (convertToGray (CD := CD) ramp) 100
             (argTarget twoAttempts) (argLoops twoAttempts) 7
             (initialState twoAttempts 100).

(** * Properties *)

(** ** Machine integers *)

Lemma wrap_small (z : Z) :
  GoInt.min_int <= z <= GoInt.max_int -> GoInt.wrap z = z.
Proof.
  unfold GoInt.wrap, GoInt.min_int, GoInt.max_int. intros Hz.
  rewrite Z.mod_small; lia.
Qed.

Lemma max_int_value : GoInt.max_int = 9223372036854775807.
Proof. reflexivity. Qed.

Lemma min_int_value : GoInt.min_int = -9223372036854775808.
Proof. reflexivity. Qed.

(** ** C5: the probed quality *)

Section ProbeFacts.

Context {F : Type} {FL : Float64 F}.

Lemma probe_floor (s : State F) :
  0 <= minQ s -> minQ s <= maxQ s -> maxQ s <= GoInt.max_int ->
  probe s = (minQ s + maxQ s) / 2.
Proof.
  intros Hlo Hle Hhi. unfold probe, GoInt.add, GoInt.quot, GoInt.sub.
  pose proof max_int_value as Hmax. pose proof min_int_value as Hmin.
  rewrite (wrap_small (maxQ s - minQ s)) by lia.
  rewrite Z.quot_div_nonneg by lia.
  assert (Hd : 0 <= (maxQ s - minQ s) / 2 <= maxQ s - minQ s).
  { split; [apply Z.div_pos; lia | apply Z.div_le_upper_bound; lia]. }
  rewrite (wrap_small ((maxQ s - minQ s) / 2)) by lia.
  rewrite wrap_small by lia.
  replace (minQ s + maxQ s) with ((maxQ s - minQ s) + minQ s * 2) by lia.
  rewrite Z.div_add by lia. lia.
Qed.

Lemma probe_between (s : State F) :
  0 <= minQ s -> minQ s < maxQ s -> maxQ s <= GoInt.max_int ->
  minQ s <= probe s < maxQ s.
Proof.
  intros Hlo Hlt Hhi. rewrite probe_floor by lia.
  split.
  - apply Z.div_le_lower_bound; lia.
  - apply Z.div_lt_upper_bound; lia.
Qed.

(** C5, as amended: at an attempt with [0 <= minQ < maxQ] the probed quality
    is the midpoint of the bracket rounded down, toward [minQ]: it is the
    floor of [(minQ + maxQ) / 2], it lies in [minQ, maxQ), and on a tie
    ([minQ + maxQ] odd) it is the lower of the two nearest integers. *)
Theorem probe_is_midpoint_rounded_down (s : State F) :
  0 <= minQ s -> minQ s < maxQ s -> maxQ s <= GoInt.max_int ->
  probe s = (minQ s + maxQ s) / 2
  /\ minQ s <= probe s < maxQ s
  /\ 2 * probe s <= minQ s + maxQ s <= 2 * probe s + 1.
Proof.
  intros Hlo Hlt Hhi.
  split; [apply probe_floor; lia |].
  split; [apply probe_between; lia |].
  rewrite probe_floor by lia.
  pose proof (Z.div_mod (minQ s + maxQ s) 2 ltac:(lia)) as Hdm.
  pose proof (Z.mod_pos_bound (minQ s + maxQ s) 2 ltac:(lia)) as Hb.
  lia.
Qed.

End ProbeFacts.

Lemma probe_is_midpoint_rounded_down_witness :
  let s := initialState (F := PrimFloat.float) (sampleArgs 40 95 6) 100 in
  (0 <= minQ s /\ minQ s < maxQ s /\ maxQ s <= GoInt.max_int)
  /\ probe s = 67
  /\ 40 <= probe s < 95
  /\ 2 * probe s <= 135 <= 2 * probe s + 1.
Proof.
  intros s.
  assert (H1 : 0 <= minQ s) by (vm_compute; congruence).
  assert (H2 : minQ s < maxQ s) by reflexivity.
  assert (H3 : maxQ s <= GoInt.max_int) by (vm_compute; congruence).
  split; [auto |].
  exact (probe_is_midpoint_rounded_down s H1 H2 H3).
Defined.

(** C5, as stated, fails: from the default bracket [40, 95] the true
    midpoint is 67.5; the program probes 67, not 68. *)
Lemma probe_not_rounded_toward_max :
  probe (initialState (F := PrimFloat.float) (sampleArgs 40 95 6) 100) = 67
  /\ midpointTowardMax 40 95 = 68
  /\ probe (initialState (F := PrimFloat.float) (sampleArgs 40 95 6) 100)
     <> midpointTowardMax 40 95.
Proof. vm_compute. repeat split; congruence. Qed.

(** ** C8: images of different dimensions *)

Section DimensionGuard.

Context {F : Type} {FL : Float64 F}.

Lemma equalDim_true (x y : Image) :
  equalDim x y = true <-> maxX x = maxX y /\ maxY x = maxY y.
Proof.
  unfold equalDim, dim. rewrite andb_true_iff, !Z.eqb_eq. tauto.
Qed.

Lemma equalDim_false (x y : Image) :
  equalDim x y = false <-> maxX x <> maxX y \/ maxY x <> maxY y.
Proof.
  unfold equalDim, dim. rewrite andb_false_iff, !Z.eqb_neq. tauto.
Qed.

(** C8: on two images of differing width or height [covar] fails with the
    dimension error and [ssim] returns 0.0; on two images of the same width
    and height [covar] returns no error. *)
Theorem dimension_guard (x y : Image) :
  ((maxX x <> maxX y \/ maxY x <> maxY y) ->
     covar (F := F) x y = (zero, Some errDimension) /\ ssim (F := F) x y = zero)
  /\ ((maxX x = maxX y /\ maxY x = maxY y) ->
        snd (covar (F := F) x y) = None).
Proof.
  split.
  - intros Hd. apply equalDim_false in Hd.
    unfold ssim, covar. rewrite Hd. simpl. split; reflexivity.
  - intros He. apply equalDim_true in He.
    unfold covar. rewrite He. simpl. destruct (dim x). reflexivity.
Qed.

End DimensionGuard.

Lemma dimension_guard_witness :
  ((maxX ramp <> maxX square \/ maxY ramp <> maxY square)
   /\ covar (F := R) ramp square = (zero, Some errDimension)
   /\ ssim (F := R) ramp square = zero)
  /\ ((maxX ramp = maxX rampReversed /\ maxY ramp = maxY rampReversed)
      /\ snd (covar (F := R) ramp rampReversed) = None).
Proof.
  assert (Hd : maxX ramp <> maxX square \/ maxY ramp <> maxY square)
    by (right; simpl; lia).
  assert (He : maxX ramp = maxX rampReversed /\ maxY ramp = maxY rampReversed)
    by (split; reflexivity).
  split.
  - split; [exact Hd |].
    exact (proj1 (dimension_guard (F := R) ramp square) Hd).
  - split; [exact He |].
    exact (proj2 (dimension_guard (F := R) ramp rampReversed) He).
Defined.

(** ** C7 and C4: the statistics in exact arithmetic *)

Section ExactStatistics.

Open Scope R_scope.

Lemma fold_row_nonneg (term : Z -> R) (ys : list Z) (acc : R) :
  (forall y, 0 <= term y) -> 0 <= acc ->
  0 <= fold_left (fun a y => f_add a (term y)) ys acc.
Proof.
  intros Hterm. revert acc.
  induction ys as [| y ys IH]; intros acc Hacc; simpl; [exact Hacc |].
  apply IH. specialize (Hterm y). lra.
Qed.

Lemma pixelLoop_nonneg (w h : Z) (term : Z -> Z -> R) (acc : R) :
  (forall x y, 0 <= term x y) -> 0 <= acc ->
  0 <= pixelLoop w h term acc.
Proof.
  intros Hterm. unfold pixelLoop. revert acc.
  induction (upto w) as [| x xs IH]; intros acc Hacc; simpl; [exact Hacc |].
  apply IH. apply fold_row_nonneg; [intros y; apply Hterm | exact Hacc].
Qed.

Lemma nMinus1_exact (w h : Z) :
  (2 <= w * h <= GoInt.max_int)%Z ->
  nMinus1 (F := R) w h = IZR (w * h - 1) /\ 1 <= IZR (w * h - 1).
Proof.
  intros Hn. pose proof max_int_value as Hmax. pose proof min_int_value as Hmin.
  unfold nMinus1, GoInt.sub, GoInt.mul.
  rewrite (wrap_small (w * h)) by lia.
  rewrite wrap_small by lia.
  split; [reflexivity |]. apply IZR_le. lia.
Qed.

Lemma C1_pos : 0 < C1 (F := R).
Proof.
  unfold C1, pow2, K1, L. cbn [f_mul f_div f_ofZ Exact].
  assert (H : 0 < 1 / 100 * 255) by lra. nra.
Qed.

Lemma C2_pos : 0 < C2 (F := R).
Proof.
  unfold C2, pow2, K2, L. cbn [f_mul f_div f_ofZ Exact].
  assert (H : 0 < 3 / 100 * 255) by lra. nra.
Qed.

(** The covariance of an image with itself is the square of its [stdev]. *)
Lemma covar_self (img : Image) :
  (2 <= maxX img * maxY img <= GoInt.max_int)%Z ->
  covar (F := R) img img = (pow2 (stdev img), None) /\ 0 <= pow2 (stdev (F := R) img).
Proof.
  intros Hn. unfold covar, stdev.
  assert (He : equalDim img img = true) by (apply equalDim_true; auto).
  rewrite He. simpl negb. cbv iota. unfold dim.
  destruct (nMinus1_exact _ _ Hn) as [Hn1 Hpos]. rewrite Hn1.
  set (sum := pixelLoop _ _ _ _).
  assert (Hsum : 0 <= sum).
  { apply pixelLoop_nonneg.
    - intros x y. cbn [f_mul f_sub Exact]. apply Rle_0_sqr.
    - unfold zero. cbn [f_ofZ Exact]. lra. }
  assert (Hq : 0 <= sum / IZR (maxX img * maxY img - 1)).
  { apply Rmult_le_pos; [exact Hsum |].
    apply Rlt_le, Rinv_0_lt_compat. lra. }
  unfold pow2. cbn [f_mul f_div f_sqrt Exact].
  rewrite sqrt_sqrt by exact Hq.
  split; [reflexivity | exact Hq].
Qed.

(** C7: in exact arithmetic, for every image with at least 2 pixels, the
    similarity of the image with itself is exactly 1: its covariance with
    itself is its variance, so numerator and denominator coincide. *)
Theorem ssim_identity (img : Image) :
  (2 <= maxX img * maxY img <= GoInt.max_int)%Z ->
  ssim (F := R) img img = 1.
Proof.
  intros Hn. unfold ssim.
  destruct (covar_self img Hn) as [Hc Hv]. rewrite Hc.
  pose proof C1_pos as HC1. pose proof C2_pos as HC2.
  set (a := mean img). set (v := pow2 (stdev img)) in *.
  unfold two, pow2. cbn [f_mul f_div f_add f_ofZ Exact].
  assert (Ha : 0 <= a * a) by nra.
  assert (Hden : (a * a + a * a + C1) * (v + v + C2) <> 0).
  { apply Rmult_integral_contrapositive_currified; lra. }
  replace ((2 * a * a + C1) * (2 * v + C2))
    with ((a * a + a * a + C1) * (v + v + C2)) by ring.
  unfold Rdiv. apply Rinv_r. exact Hden.
Qed.

End ExactStatistics.

Lemma ssim_identity_witness :
  (2 <= maxX ramp * maxY ramp <= GoInt.max_int) /\ ssim (F := R) ramp ramp = 1%R.
Proof.
  assert (H : 2 <= maxX ramp * maxY ramp <= GoInt.max_int)
    by (vm_compute; split; congruence).
  split; [exact H | exact (ssim_identity ramp H)].
Defined.

(** C4: the program's [mean] is not the arithmetic mean.  On the image of
    two pixels of luminance 3 the arithmetic mean is 3; [mean] divides the
    sum 6 by [w*h - 1 = 1] and returns 6, in exact arithmetic and in
    binary64 alike. *)
Theorem mean_divides_by_pixels_minus_one :
  mean (F := R) dimPair = 6%R
  /\ arithmeticMean (F := R) dimPair = 3%R
  /\ mean (F := PrimFloat.float) dimPair = f_ofZ 6.
Proof.
  assert (Hsum : pixelLoop (F := R) 2 1 (fun x y => getPixVal (At dimPair x y)) zero
                 = (0 + 3 + 3)%R).
  { unfold pixelLoop.
    change (upto 2) with [0; 1]. change (upto 1) with [0].
    cbn [fold_left]. unfold getPixVal, zero.
    change (Z.shiftr (cR (At dimPair 0 0)) 8) with 3.
    change (Z.shiftr (cR (At dimPair 1 0)) 8) with 3.
    reflexivity. }
  split; [| split].
  - unfold mean, dim. change (maxX dimPair) with 2. change (maxY dimPair) with 1.
    rewrite Hsum. change (nMinus1 (F := R) 2 1) with (IZR 1).
    cbn [f_div Exact]. lra.
  - unfold arithmeticMean, dim.
    change (maxX dimPair) with 2. change (maxY dimPair) with 1.
    rewrite Hsum. change (f_ofZ (F := R) (2 * 1)) with (IZR 2).
    cbn [f_div Exact]. lra.
  - vm_compute. reflexivity.
Qed.

(** ** C3: the argument check *)

Section ArgumentCheck.

Context {F : Type} {FL : Float64 F} {CD : Codec}.
Variable W : World.

(** [checkArgs] accepts exactly when every one of its tests passes; none of
    them relates [min] to [max]. *)
Lemma checkArgs_true_iff (src dest : string) (force : bool) (max min : Z)
    (target : F) (loops : Z) :
  checkArgs W src dest force max min target loops = true <->
  statNotExist W src = false
  /\ (force = true \/ statOk W dest = false)
  /\ String.eqb dest "" = false
  /\ 1 <= max <= 100
  /\ 0 <= min <= 99
  /\ f_leb target zero = false
  /\ f_ltb (f_ofZ 1) target = false
  /\ 0 < loops.
Proof.
  unfold checkArgs, checkArgsMsg.
  destruct (statNotExist W src), force, (statOk W dest), (String.eqb dest "");
    destruct (f_leb target zero), (f_ltb (f_ofZ 1) target);
    destruct (Z.ltb_spec max 1), (Z.gtb_spec max 100),
             (Z.ltb_spec min 0), (Z.gtb_spec min 99), (Z.leb_spec loops 0);
    simpl; split; intros Hx; try discriminate; try reflexivity;
    try (repeat split; (reflexivity || lia || (left; reflexivity)
                        || (right; reflexivity)));
    try (destruct Hx as (Hx1 & Hx2 & Hx3 & Hx4 & Hx5 & Hx6 & Hx7 & Hx8);
         try discriminate; try lia; destruct Hx2; discriminate).
Qed.

(** C3, as amended: a configuration whose maximum quality is outside
    [1, 100], whose minimum quality is outside [0, 99], whose target is
    [<= 0] or [> 1], or whose number of attempts is [<= 0] is rejected by
    [checkArgs]; the run then evaluates no attempt, and unless help was asked
    for it prints the error and the usage and exits with status 1. *)
Theorem invalid_ranges_rejected (fuel : nat) (a : Args F) :
  (argMax a < 1 \/ argMax a > 100 \/ argMin a < 0 \/ argMin a > 99
   \/ f_leb (argTarget a) zero = true \/ f_ltb (f_ofZ 1) (argTarget a) = true
   \/ argLoops a <= 0) ->
  checkArgs W (src a) (dest a) (force a) (argMax a) (argMin a) (argTarget a)
            (argLoops a) = false
  /\ attemptLines (fst (main W fuel a)) = []
  /\ (help a = false ->
      main W fuel a =
        ([PrintError (checkArgsMsg W (src a) (dest a) (force a) (argMax a)
                                   (argMin a) (argTarget a) (argLoops a));
          PrintUsage], OsExit 1)).
Proof.
  intros Hbad.
  assert (Hc : checkArgs W (src a) (dest a) (force a) (argMax a) (argMin a)
                         (argTarget a) (argLoops a) = false).
  { apply not_true_is_false. intros Hok.
    apply checkArgs_true_iff in Hok.
    destruct Hok as (_ & _ & _ & Hmax & Hmin & Ht0 & Ht1 & Hl).
    destruct Hbad as [H | [H | [H | [H | [H | [H | H]]]]]];
      try lia; congruence. }
  split; [exact Hc |].
  unfold main. rewrite Hc. simpl negb. cbv iota.
  destruct (help a); simpl; split; try reflexivity.
  intros; discriminate.
Qed.

End ArgumentCheck.

Lemma invalid_ranges_rejected_witness :
  let W := healthyWorld ramp 100 in
  let a := sampleArgs (F := PrimFloat.float) 40 101 6 in
  (argMax a < 1 \/ argMax a > 100 \/ argMin a < 0 \/ argMin a > 99
   \/ f_leb (argTarget a) zero = true \/ f_ltb (f_ofZ 1) (argTarget a) = true
   \/ argLoops a <= 0)
  /\ checkArgs W (src a) (dest a) (force a) (argMax a) (argMin a) (argTarget a)
               (argLoops a) = false
  /\ attemptLines (fst (main (CD := goodCodec) W 7 a)) = [].
Proof.
  intros W a.
  assert (H : argMax a < 1 \/ argMax a > 100 \/ argMin a < 0 \/ argMin a > 99
              \/ f_leb (argTarget a) zero = true
              \/ f_ltb (f_ofZ 1) (argTarget a) = true
              \/ argLoops a <= 0) by (right; left; reflexivity).
  split; [exact H |].
  pose proof (invalid_ranges_rejected (CD := goodCodec) W 7 a H) as [H1 [H2 _]].
  split; [exact H1 | exact H2].
Defined.

(** C3, as stated, fails: with [-min 50 -max 40] every option is inside its
    range, [checkArgs] accepts, and the search evaluates quality 45. *)
Lemma reversed_bracket_is_searched :
  let W := healthyWorld ramp 100 in
  let a := sampleArgs (F := PrimFloat.float) 50 40 6 in
  argMin a >= argMax a
  /\ checkArgs W (src a) (dest a) (force a) (argMax a) (argMin a) (argTarget a)
               (argLoops a) = true
  /\ attemptLines (fst (main (CD := goodCodec) W 7 a)) = [(1, 45, 50)].
Proof. vm_compute. repeat split; congruence. Qed.

(** ** The search loop *)

Section LoopFacts.

Context {F : Type} {FL : Float64 F} {CD : Codec}.

Variable originalGray : Image.
Variable originalSize : Z.
Variable target : F.
Variable loops : Z.

Local Abbreviation body' := (body originalGray originalSize target loops).
Local Abbreviation searchLoop' := (searchLoop originalGray originalSize target loops).
Local Abbreviation decide' := (decide originalSize target loops).
Local Abbreviation updateFallback' := (updateFallback originalSize).
Local Abbreviation updateBest' := (updateBest target).

Lemma searchLoop_step (fuel : nat) (s : State F) :
  searchLoop' (S fuel) s =
  if attempt s <=? loops then
    match body' s with
    | Break => ([], Finished s)
    | ComparePanic => ([], LoopPanic)
    | Next c s' =>
        let '(tr, e) := searchLoop' fuel (setAttempt (GoInt.add (attempt s') 1) s') in
        ((s, c) :: tr, e)
    end
  else ([], Finished s).
Proof. reflexivity. Qed.

(** What the end of the body leaves of the state it started from. *)
Lemma updateBest_keeps (c : Candidate F) (s : State F) :
  let s' := updateBest' c s in
  attempt s' = attempt s /\ minQ s' = minQ s /\ maxQ s' = maxQ s
  /\ fallbackQ s' = fallbackQ s /\ fallbackSize s' = fallbackSize s
  /\ fallbackIndex s' = fallbackIndex s.
Proof.
  unfold updateBest.
  destruct ((newSize c <? bestSize s) && f_leb target (index c));
    simpl; repeat split; reflexivity.
Qed.

Lemma updateFallback_keeps (c : Candidate F) (s : State F) :
  let s' := updateFallback' c s in
  attempt s' = attempt s /\ minQ s' = minQ s /\ maxQ s' = maxQ s
  /\ bestSize s' = bestSize s /\ bestQ s' = bestQ s /\ bestIndex s' = bestIndex s.
Proof.
  unfold updateFallback, recordFallback, initFallback.
  destruct (fallbackSize s =? 0); simpl;
    repeat match goal with
           | |- context [if ?b then _ else _] => destruct b; simpl
           end; repeat split; reflexivity.
Qed.

Lemma decide_keeps (c : Candidate F) (s : State F) :
  let s' := decide' c s in
  fallbackQ s' = fallbackQ s /\ fallbackSize s' = fallbackSize s
  /\ fallbackIndex s' = fallbackIndex s
  /\ (attempt s' = attempt s \/ attempt s' = loops).
Proof.
  unfold decide.
  repeat match goal with
         | |- context [if ?b then _ else _] => destruct b; simpl
         end; repeat split; auto.
Qed.

(** The shape of a completed body. *)
Lemma body_next (s : State F) (c : Candidate F) (s' : State F) :
  body' s = Next c s' ->
  minQ s <> maxQ s
  /\ quality c = probe s
  /\ s' = updateFallback' c (updateBest' c (decide' c s))
  /\ exists data, compare originalGray (probe s) = (index c, data, None)
                  /\ newSize c = Z.of_nat (List.length data).
Proof.
  unfold body. destruct (Z.eqb_spec (minQ s) (maxQ s)) as [He | Hne];
    [discriminate |].
  destruct (compare originalGray (probe s)) as [[idx data] [err |]];
    [discriminate |].
  intros H. injection H as <- <-. simpl.
  repeat split; auto. exists data. split; reflexivity.
Qed.




End LoopFacts.

(** ** C1: what the candidate evaluation encodes *)

Section Evaluation.

Context {F : Type} {FL : Float64 F} {CD : Codec}.


(** How [main] reaches the loop: the search runs on the gray copy of the
    image that was read. *)
Lemma main_search (W : World) (fuel : nat) (a : Args F) (original : Image)
    (size : Z) :
  help a = false ->
  checkArgs W (src a) (dest a) (force a) (argMax a) (argMin a) (argTarget a)
            (argLoops a) = true ->
  readImage W (src a) = inr original ->
  getFilesize W (src a) = (size, None) ->
  main W fuel a =
  match searchLoop (convertToGray original) size (argTarget a) (argLoops a)
                   fuel (initialState a size) with
  | (tr, LoopOutOfFuel) => (PrintOriginalSize size :: printAttempts tr, OutOfFuel)
  | (tr, LoopPanic) =>
      (PrintOriginalSize size :: printAttempts tr,
       Panicked "Error when comparing images")
  | (tr, Finished s) =>
      let '(ev, ex) := selectOutcome W original size a s in
      (PrintOriginalSize size :: printAttempts tr ++ ev, ex)
  end.
Proof.
  intros Hh Hc Hr Hs. unfold main. rewrite Hh, Hc, Hr, Hs. reflexivity.
Qed.



End Evaluation.


(** ** C6: the bracket and the number of attempts *)

Section Bracket.

Context {F : Type} {FL : Float64 F} {CD : Codec}.

Variable originalGray : Image.
Variable originalSize : Z.
Variable target : F.
Variable loops : Z.

Local Abbreviation body' := (body originalGray originalSize target loops).
Local Abbreviation searchLoop' := (searchLoop originalGray originalSize target loops).

Lemma body_bracket (s : State F) (c : Candidate F) (s' : State F) :
  bracketOk s -> body' s = Next c s' ->
  bracketOk s' /\ width s' <= width s
  /\ (attempt s' = attempt s \/ attempt s' = loops).
Proof.
  intros (Hlo & Hle & Hhi) Hb.
  apply body_next in Hb. destruct Hb as (Hne & Hq & Hs' & _).
  pose proof max_int_value as Hmax. pose proof min_int_value as Hmin.
  pose proof (probe_between s ltac:(lia) ltac:(lia) ltac:(lia)) as Hp.
  destruct (updateFallback_keeps originalSize c
              (updateBest target c (decide originalSize target loops c s)))
    as (Ha1 & Hm1 & HM1 & _).
  destruct (updateBest_keeps target c (decide originalSize target loops c s))
    as (Ha2 & Hm2 & HM2 & _).
  unfold bracketOk, width. rewrite Hs', Ha1, Hm1, HM1, Ha2, Hm2, HM2.
  unfold decide. rewrite Hq. unfold GoInt.sub, GoInt.add.
  rewrite (wrap_small (probe s - 1)) by lia.
  rewrite (wrap_small (probe s + 1)) by lia.
  repeat match goal with
         | |- context [if ?b then _ else _] => destruct b; simpl
         end; lia.
Qed.





End Bracket.



(** ** C10 and C2: the fallback candidate *)

Section Fallback.

Context {F : Type} {FL : Float64 F} {CD : Codec}.

Variable originalGray : Image.
Variable originalSize : Z.
Variable target : F.
Variable loops : Z.

Local Abbreviation body' := (body originalGray originalSize target loops).
Local Abbreviation searchLoop' := (searchLoop originalGray originalSize target loops).

(** When neither recording branch is taken, the fallback quality and index
    stay as they were. *)
Lemma updateFallback_untouched (c : Candidate F) (s t : State F) :
  fallbackSize t = fallbackSize s ->
  recordsFallback originalSize c (initFallback c s) = false ->
  fallbackQ (updateFallback originalSize c t) = fallbackQ t
  /\ fallbackIndex (updateFallback originalSize c t) = fallbackIndex t.
Proof.
  unfold updateFallback, recordFallback, recordsFallback, initFallback.
  intros Hsz. rewrite Hsz.
  destruct (fallbackSize s =? 0); simpl; rewrite ?Hsz; intros Hr;
    apply orb_false_iff in Hr; destruct Hr as [Hr1 Hr2];
    rewrite Hr1, Hr2; simpl; split; reflexivity.
Qed.

Lemma body_untouched (s : State F) (c : Candidate F) (s' : State F) :
  body' s = Next c s' ->
  recordsFallback originalSize c (initFallback c s) = false ->
  fallbackQ s' = fallbackQ s /\ fallbackIndex s' = fallbackIndex s.
Proof.
  intros Hb Hr. apply body_next in Hb. destruct Hb as (_ & _ & Hs' & _).
  destruct (decide_keeps originalSize target loops c s) as (Hq1 & Hz1 & Hi1 & _).
  destruct (updateBest_keeps target c (decide originalSize target loops c s))
    as (_ & _ & _ & Hq2 & Hz2 & Hi2).
  destruct (updateFallback_untouched c s
              (updateBest target c (decide originalSize target loops c s)))
    as [Hq3 Hi3]; [congruence | exact Hr |].
  rewrite Hs'. split; congruence.
Qed.

Lemma searchLoop_untouched (fuel : nat) :
  forall s tr sf,
  searchLoop' fuel s = (tr, Finished sf) ->
  Forall (fun sc => recordsFallback originalSize (snd sc)
                      (initFallback (snd sc) (fst sc)) = false) tr ->
  fallbackQ sf = fallbackQ s /\ fallbackIndex sf = fallbackIndex s.
Proof.
  induction fuel as [| fuel IH]; intros s tr sf Hrun Hall; [discriminate |].
  rewrite searchLoop_step in Hrun.
  destruct (attempt s <=? loops).
  - destruct (body' s) as [| | c s'] eqn:Hb.
    + injection Hrun as <- <-. split; reflexivity.
    + discriminate.
    + destruct (searchLoop' fuel _) as [tr' e] eqn:Hrest.
      injection Hrun as <- ->.
      inversion Hall as [| x l Hhead Htail]; subst. simpl in Hhead.
      destruct (body_untouched s c s' Hb Hhead) as [Hq Hi].
      destruct (IH _ _ _ Hrest Htail) as [Hq' Hi'].
      simpl in Hq', Hi'. split; congruence.
  - injection Hrun as <- <-. split; reflexivity.
Qed.

(** The first attempt only initialises [fallbackSize]: it never records a
    quality. *)
Lemma first_attempt_records_nothing (c : Candidate F) (s : State F) :
  fallbackSize s = 0 ->
  recordsFallback originalSize c (initFallback c s) = false.
Proof.
  intros Hz. unfold recordsFallback, initFallback. rewrite Hz. simpl.
  rewrite Z.gtb_ltb, !Z.ltb_irrefl, !andb_false_r. reflexivity.
Qed.

(** A collapsed bracket evaluates no attempt. *)
Lemma collapsed_bracket_evaluates_nothing (fuel : nat) (s : State F) :
  minQ s = maxQ s ->
  fst (searchLoop' (S fuel) s) = [] /\ snd (searchLoop' (S fuel) s) = Finished s.
Proof.
  intros He. rewrite searchLoop_step. unfold body.
  rewrite He, Z.eqb_refl. destruct (attempt s <=? loops); split; reflexivity.
Qed.

End Fallback.

Section FallbackOutcome.

Context {F : Type} {FL : Float64 F} {CD : Codec}.
Variable W : World.

(** C10: when no attempt of the run takes a branch that records the
    fallback quality, and the selection of the output reaches the fallback
    re-encode (no best candidate, copying allowed, source not a JPEG file),
    the report shows quality 0 and index 0.0 and the output is the encoding
    of the original image at quality 0. *)
Theorem unrecorded_fallback_is_quality_zero (fuel : nat) (a : Args F)
    (original : Image) (originalSize : Z)
    (tr : list (State F * Candidate F)) (s : State F) :
  searchLoop (convertToGray original) originalSize (argTarget a) (argLoops a)
             fuel (initialState a originalSize) = (tr, Finished s) ->
  Forall (fun sc => recordsFallback originalSize (snd sc)
                      (initFallback (snd sc) (fst sc)) = false) tr ->
  (bestSize s <? originalSize) = false ->
  noCopy a = false ->
  isJpeg W (src a) = false ->
  fallbackQ s = 0 /\ fallbackIndex s = zero
  /\ selectOutcome W original originalSize a s =
     match encodeToJPEGBytes original 0 with
     | (_, Some err) =>
         ([PrintNoMatchFallback; PrintFinal 0 zero (fallbackSize s)],
          Panicked err)
     | (data, None) =>
         ([PrintNoMatchFallback; PrintFinal 0 zero (fallbackSize s)]
            ++ fst (save W (dest a) data), Returned)
     end.
Proof.
  intros Hrun Hall Hbest Hcopy Hjpeg.
  destruct (searchLoop_untouched _ _ _ _ _ _ _ _ Hrun Hall) as [Hq Hi].
  simpl in Hq, Hi.
  split; [exact Hq |]. split; [exact Hi |].
  unfold selectOutcome. rewrite Hbest, Hcopy, Hjpeg, Hq, Hi. reflexivity.
Qed.

End FallbackOutcome.

Lemma unrecorded_fallback_is_quality_zero_witness :
  let W := healthyWorld ramp 100 in
  let a := sampleArgs (F := PrimFloat.float) 40 95 1 in
  let run := searchLoop (CD := hopelessCodec)
               (convertToGray (CD := hopelessCodec) ramp) 100 (argTarget a)
               (argLoops a) 7 (initialState a 100) in
  let s := mkState 2 40 95 100 0 zero 0 150 zero in
  (run = (fst run, Finished s)
   /\ List.length (fst run) = 1%nat
   /\ Forall (fun sc => recordsFallback 100 (snd sc)
                          (initFallback (snd sc) (fst sc)) = false) (fst run)
   /\ (bestSize s <? 100) = false
   /\ noCopy a = false
   /\ isJpeg W (src a) = false)
  /\ fallbackQ s = 0 /\ fallbackIndex s = zero
  /\ finalLines (fst (selectOutcome (CD := hopelessCodec) W ramp 100 a s))
     = [(0, 150)].
Proof.
  intros W a run s.
  assert (H1 : run = (fst run, Finished s)) by (vm_compute; reflexivity).
  assert (H2 : Forall (fun sc => recordsFallback 100 (snd sc)
                                   (initFallback (snd sc) (fst sc)) = false)
                      (fst run))
    by (vm_compute; repeat constructor).
  assert (H3 : (bestSize s <? 100) = false) by reflexivity.
  assert (H4 : noCopy a = false) by reflexivity.
  assert (H5 : isJpeg W (src a) = false) by reflexivity.
  split.
  - repeat split; auto.
  - pose proof (unrecorded_fallback_is_quality_zero (CD := hopelessCodec)
                  W 7 a ramp 100 (fst run) s H1 H2 H3 H4 H5) as (Hq & Hi & Hsel).
    split; [exact Hq |]. split; [exact Hi |].
    rewrite Hsel. vm_compute. reflexivity.
Defined.

(** C2: the fallback does not hold the candidate closest to the original
    size from below.  With an original of 100 bytes, the first attempt
    (quality 67) yields 150 bytes and only sets [fallbackSize]; the second
    (quality 53) yields 50 bytes, which is not above [fallbackSize], so it is
    not recorded.  The run reports quality 0 with size 150 and writes the
    encoding at quality 0, a quality that was never probed. *)
Theorem fallback_misses_smaller_candidate :
  let W := healthyWorld ramp 100 in
  let a := sampleArgs (F := PrimFloat.float) 40 95 2 in
  let out := main (CD := crossingCodec) W 7 a in
  attemptLines (fst out) = [(1, 67, 150); (2, 53, 50)]
  /\ finalLines (fst out) = [(0, 150)]
  /\ writes (fst out) = [fst (encodeToJPEGBytes (CD := crossingCodec) ramp 0)]
  /\ snd out = Returned.
Proof. vm_compute. repeat split; reflexivity. Qed.

(** ** C9: failures while writing the output *)

(** C9: a failed write is not reported.  When [os.Create] fails the run logs
    the error, still prints the final report and returns normally, with no
    output written; when [f.Write] stops after 10 of the 50 bytes the run
    prints the same report and returns normally, leaving the 10 bytes. *)
Theorem failed_save_is_reported_as_success :
  let a := sampleArgs (F := PrimFloat.float) 40 95 1 in
  let denied := sampleWorld ramp 100 (Some "permission denied"%string)
                            (fun n => (n, None)) in
  let full := sampleWorld ramp 100 None
                (fun _ => (10%nat, Some "no space left on device"%string)) in
  let out1 := main (CD := goodCodec) denied 7 a in
  let out2 := main (CD := goodCodec) full 7 a in
  (In (LogPrintln "permission denied"%string) (fst out1)
   /\ finalLines (fst out1) = [(67, 50)]
   /\ writes (fst out1) = []
   /\ snd out1 = Returned)
  /\ (finalLines (fst out2) = [(67, 50)]
      /\ writes (fst out2) = [repeat Byte.x00 10]
      /\ snd out2 = Returned)
  /\ snd (save (F := PrimFloat.float) full "out.jpg"%string (repeat Byte.x00 50))
     = None.
Proof.
  vm_compute. repeat split; try reflexivity.
  right. right. left. reflexivity.
Qed.

(** * Further properties of the search loop *)

Section Candidates.

Context {F : Type} {FL : Float64 F} {CD : Codec}.

Variable originalGray : Image.
Variable originalSize : Z.
Variable target : F.
Variable loops : Z.

Local Abbreviation body' := (body originalGray originalSize target loops).
Local Abbreviation searchLoop' := (searchLoop originalGray originalSize target loops).

Lemma decide_keeps_best (c : Candidate F) (s : State F) :
  let s' := decide originalSize target loops c s in
  bestSize s' = bestSize s /\ bestQ s' = bestQ s /\ bestIndex s' = bestIndex s.
Proof.
  unfold decide.
  repeat match goal with
         | |- context [if ?b then _ else _] => destruct b; simpl
         end; repeat split; reflexivity.
Qed.

(** What one completed body does to the best candidate. *)
Lemma body_best (s : State F) (c : Candidate F) (s' : State F) :
  body' s = Next c s' ->
  (newSize c < bestSize s /\ f_leb target (index c) = true
   /\ bestSize s' = newSize c /\ bestQ s' = quality c /\ bestIndex s' = index c)
  \/ ((bestSize s <= newSize c \/ f_leb target (index c) = false)
      /\ bestSize s' = bestSize s /\ bestQ s' = bestQ s
      /\ bestIndex s' = bestIndex s).
Proof.
  intros Hb. apply body_next in Hb. destruct Hb as (_ & _ & Hs' & _).
  destruct (updateFallback_keeps originalSize c
              (updateBest target c (decide originalSize target loops c s)))
    as (_ & _ & _ & Hz & Hq & Hi).
  destruct (decide_keeps_best c s) as (Hz0 & Hq0 & Hi0).
  rewrite Hs', Hz, Hq, Hi. unfold updateBest. rewrite Hz0.
  destruct (Z.ltb_spec (newSize c) (bestSize s)) as [Hlt | Hge];
    destruct (f_leb target (index c)) eqn:Ht; simpl.
  - left. repeat split; auto.
  - right. repeat split; auto.
  - right. repeat split; auto.
  - right. repeat split; auto.
Qed.

Lemma searchLoop_best (fuel : nat) (s : State F)
    (tr : list (State F * Candidate F)) (sf : State F) :
  searchLoop' fuel s = (tr, Finished sf) ->
  bestSize sf <= bestSize s
  /\ (forall sc, In sc tr -> f_leb target (index (snd sc)) = true ->
                 bestSize sf <= newSize (snd sc))
  /\ (bestSize sf < bestSize s ->
      exists sc, In sc tr /\ quality (snd sc) = bestQ sf
                 /\ newSize (snd sc) = bestSize sf
                 /\ index (snd sc) = bestIndex sf
                 /\ f_leb target (index (snd sc)) = true)
  /\ (bestSize sf = bestSize s ->
      bestQ sf = bestQ s /\ bestIndex sf = bestIndex s).
Proof.
  revert s tr sf.
  induction fuel as [| fuel IH]; intros s tr sf Hrun; [discriminate |].
  rewrite searchLoop_step in Hrun.
  assert (Hstay : forall t : list (State F * Candidate F),
            ([], Finished s) = (t, Finished sf) ->
            bestSize sf <= bestSize s
            /\ (forall sc, In sc t -> f_leb target (index (snd sc)) = true ->
                           bestSize sf <= newSize (snd sc))
            /\ (bestSize sf < bestSize s ->
                exists sc, In sc t /\ quality (snd sc) = bestQ sf
                           /\ newSize (snd sc) = bestSize sf
                           /\ index (snd sc) = bestIndex sf
                           /\ f_leb target (index (snd sc)) = true)
            /\ (bestSize sf = bestSize s ->
                bestQ sf = bestQ s /\ bestIndex sf = bestIndex s)).
  { intros t Ht. injection Ht as <- <-.
    split; [lia |]. split; [intros sc []|]. split; [lia | auto]. }
  destruct (attempt s <=? loops); [| apply Hstay; exact Hrun].
  destruct (body' s) as [| | c s'] eqn:Hb;
    [apply Hstay; exact Hrun | discriminate |].
  destruct (searchLoop' fuel _) as [tr' e] eqn:Hrest.
  injection Hrun as <- ->.
  destruct (IH _ _ _ Hrest) as (Hle & Hall & Hset & Hsame).
  simpl in Hle, Hset, Hsame.
  destruct (body_best s c s' Hb)
    as [(Hlt & Ht & Hz & Hq & Hi) | (Hno & Hz & Hq & Hi)].
  - split; [lia |]. split; [| split].
    + intros sc [<- | Hin] Hok; simpl; [lia | apply Hall; auto].
    + intros _. destruct (Z.eq_dec (bestSize sf) (bestSize s')) as [He | Hne].
      * destruct (Hsame He) as [Hq' Hi'].
        exists (s, c). simpl. split; [left; reflexivity |].
        split; [lia |]. split; [lia |].
        split; [rewrite Hi', Hi; reflexivity | exact Ht].
      * destruct Hset as (sc & Hin & Hrest'); [lia |].
        exists sc. split; [right; exact Hin | exact Hrest'].
    + intros He. lia.
  - split; [lia |]. split; [| split].
    + intros sc [<- | Hin] Hok; [| apply Hall; auto].
      simpl in Hok |- *. destruct Hno as [Hge | Hf]; [lia | congruence].
    + intros Hlt. destruct Hset as (sc & Hin & Hrest'); [lia |].
      exists sc. split; [right; exact Hin | exact Hrest'].
    + intros He. destruct Hsame as [Hq' Hi']; [lia |].
      split; congruence.
Qed.

(** X1: at the end of the loop the best size never exceeds the one the loop
    started with nor the size of any evaluated candidate that met the
    target; when it dropped, the best candidate is one of the evaluated
    candidates and it met the target; when it did not, the best quality and
    index are untouched. *)
Theorem best_is_smallest_qualifying (fuel : nat) (s : State F)
    (tr : list (State F * Candidate F)) (sf : State F) :
  searchLoop' fuel s = (tr, Finished sf) ->
  bestSize sf <= bestSize s
  /\ (forall sc, In sc tr -> f_leb target (index (snd sc)) = true ->
                 bestSize sf <= newSize (snd sc))
  /\ (bestSize sf < bestSize s ->
      exists sc, In sc tr /\ quality (snd sc) = bestQ sf
                 /\ newSize (snd sc) = bestSize sf
                 /\ index (snd sc) = bestIndex sf
                 /\ f_leb target (index (snd sc)) = true)
  /\ (bestSize sf = bestSize s ->
      bestQ sf = bestQ s /\ bestIndex sf = bestIndex s).
Proof. exact (searchLoop_best fuel s tr sf). Qed.

(** What one completed body does to the fallback candidate. *)
Lemma body_fallback (s : State F) (c : Candidate F) (s' : State F) :
  body' s = Next c s' ->
  let fb := if fallbackSize s =? 0 then newSize c else fallbackSize s in
  (((newSize c <= originalSize /\ fb < newSize c)
    \/ (originalSize < newSize c /\ newSize c < fb))
   /\ fallbackSize s' = newSize c /\ fallbackQ s' = quality c
   /\ fallbackIndex s' = index c)
  \/ (~ ((newSize c <= originalSize /\ fb < newSize c)
         \/ (originalSize < newSize c /\ newSize c < fb))
      /\ fallbackSize s' = fb /\ fallbackQ s' = fallbackQ s
      /\ fallbackIndex s' = fallbackIndex s).
Proof.
  intros Hb. apply body_next in Hb. destruct Hb as (_ & _ & Hs' & _).
  destruct (decide_keeps originalSize target loops c s) as (Hq1 & Hz1 & Hi1 & _).
  destruct (updateBest_keeps target c (decide originalSize target loops c s))
    as (_ & _ & _ & Hq2 & Hz2 & Hi2).
  set (t := updateBest target c (decide originalSize target loops c s)) in *.
  assert (Hq : fallbackQ t = fallbackQ s) by congruence.
  assert (Hz : fallbackSize t = fallbackSize s) by congruence.
  assert (Hi : fallbackIndex t = fallbackIndex s) by congruence.
  rewrite Hs'. unfold updateFallback, recordFallback, initFallback.
  rewrite Hz. cbv zeta.
  destruct (fallbackSize s =? 0); simpl;
    repeat match goal with
           | |- context [Z.leb ?a ?b] => destruct (Z.leb_spec a b); simpl
           | |- context [Z.gtb ?a ?b] => destruct (Z.gtb_spec a b); simpl
           | |- context [Z.ltb ?a ?b] => destruct (Z.ltb_spec a b); simpl
           end;
    try (left; repeat split; auto; lia);
    try (right; repeat split; auto; lia).
Qed.

Lemma body_size_nonneg (s : State F) (c : Candidate F) (s' : State F) :
  body' s = Next c s' -> 0 <= newSize c.
Proof.
  intros Hb. apply body_next in Hb.
  destruct Hb as (_ & _ & _ & data & _ & Hsz). rewrite Hsz. lia.
Qed.

Lemma searchLoop_fallback_origin (fuel : nat) :
  0 <= originalSize ->
  forall s tr sf,
  0 <= fallbackSize s ->
  searchLoop' fuel s = (tr, Finished sf) ->
  0 <= fallbackSize sf
  /\ ((fallbackQ sf = fallbackQ s /\ fallbackIndex sf = fallbackIndex s
       /\ (fallbackSize s <> 0 -> fallbackSize sf = fallbackSize s))
      \/ exists sc, In sc tr /\ quality (snd sc) = fallbackQ sf
                    /\ newSize (snd sc) = fallbackSize sf
                    /\ index (snd sc) = fallbackIndex sf).
Proof.
  intros Horig.
  induction fuel as [| fuel IH]; intros s tr sf Hnn Hrun; [discriminate |].
  rewrite searchLoop_step in Hrun.
  destruct (attempt s <=? loops);
    [| injection Hrun as <- <-; split; [exact Hnn | left; auto]].
  destruct (body' s) as [| | c s'] eqn:Hb;
    [injection Hrun as <- <-; split; [exact Hnn | left; auto] | discriminate |].
  destruct (searchLoop' fuel _) as [tr' e] eqn:Hrest.
  injection Hrun as <- ->.
  pose proof (body_size_nonneg s c s' Hb) as Hc.
  pose proof (body_fallback s c s' Hb) as Hfb. cbv zeta in Hfb.
  assert (Hfbv : 0 <= (if fallbackSize s =? 0 then newSize c else fallbackSize s)
                 /\ (fallbackSize s <> 0 ->
                     (if fallbackSize s =? 0 then newSize c else fallbackSize s)
                     = fallbackSize s)).
  { destruct (Z.eqb_spec (fallbackSize s) 0); split; auto; lia. }
  destruct Hfbv as [Hfb0 Hfbs].
  assert (Hnn' : 0 <= fallbackSize s').
  { destruct Hfb as [(_ & Hz & _) | (_ & Hz & _)]; rewrite Hz; lia. }
  destruct (IH (setAttempt (GoInt.add (attempt s') 1) s') tr' sf Hnn' Hrest)
    as [Hsf [(Hq & Hi & Hz) | (sc & Hin & Hsc)]].
  - simpl in Hq, Hi, Hz. split; [exact Hsf |].
    destruct Hfb as [(Hcond & Hz' & Hq' & Hi') | (_ & Hz' & Hq' & Hi')].
    + right. exists (s, c). simpl.
      assert (Hpos : fallbackSize s' <> 0) by lia.
      split; [left; reflexivity |]. rewrite (Hz Hpos). repeat split; congruence.
    + left. split; [congruence |]. split; [congruence |].
      intros Hne. rewrite Hz; [rewrite Hz'; auto | rewrite Hz', (Hfbs Hne); exact Hne].
  - split; [exact Hsf |]. right. exists sc. split; [right; exact Hin | exact Hsc].
Qed.

(** X2: with a non-negative original size, at the end of the loop the
    fallback quality and index are either the ones the loop started with or
    those of an evaluated candidate whose size is the fallback size. *)
Theorem fallback_is_initial_or_evaluated (fuel : nat) (s : State F)
    (tr : list (State F * Candidate F)) (sf : State F) :
  0 <= originalSize -> 0 <= fallbackSize s ->
  searchLoop' fuel s = (tr, Finished sf) ->
  (fallbackQ sf = fallbackQ s /\ fallbackIndex sf = fallbackIndex s)
  \/ exists sc, In sc tr /\ quality (snd sc) = fallbackQ sf
                /\ newSize (snd sc) = fallbackSize sf
                /\ index (snd sc) = fallbackIndex sf.
Proof.
  intros Horig Hnn Hrun.
  destruct (searchLoop_fallback_origin fuel Horig s tr sf Hnn Hrun)
    as [_ [(Hq & Hi & _) | Hex]]; [left; auto | right; exact Hex].
Qed.

(** Once set, the fallback size stays on its side of the original size and
    only moves toward it. *)
Lemma searchLoop_fallback_side (fuel : nat) :
  0 <= originalSize ->
  forall s tr sf,
  0 < fallbackSize s ->
  searchLoop' fuel s = (tr, Finished sf) ->
  (fallbackSize s <= originalSize ->
   fallbackSize s <= fallbackSize sf <= originalSize)
  /\ (originalSize < fallbackSize s ->
      originalSize < fallbackSize sf <= fallbackSize s).
Proof.
  intros Horig.
  induction fuel as [| fuel IH]; intros s tr sf Hpos Hrun; [discriminate |].
  rewrite searchLoop_step in Hrun.
  destruct (attempt s <=? loops);
    [| injection Hrun as <- <-; split; lia].
  destruct (body' s) as [| | c s'] eqn:Hb;
    [injection Hrun as <- <-; split; lia | discriminate |].
  destruct (searchLoop' fuel _) as [tr' e] eqn:Hrest.
  injection Hrun as <- ->.
  pose proof (body_fallback s c s' Hb) as Hfb. cbv zeta in Hfb.
  replace (fallbackSize s =? 0) with false in Hfb
    by (symmetry; apply Z.eqb_neq; lia).
  assert (Hstep : 0 < fallbackSize s'
                  /\ (fallbackSize s <= originalSize ->
                      fallbackSize s <= fallbackSize s' <= originalSize)
                  /\ (originalSize < fallbackSize s ->
                      originalSize < fallbackSize s' <= fallbackSize s)).
  { destruct Hfb as [(Hcond & Hz & _) | (_ & Hz & _)]; rewrite Hz; lia. }
  destruct Hstep as (Hpos' & Hlow & Hhigh).
  destruct (IH (setAttempt (GoInt.add (attempt s') 1) s') tr' sf Hpos' Hrest)
    as [Hl Hh].
  simpl in Hl, Hh. split; intros Hside.
  - specialize (Hlow Hside). lia.
  - specialize (Hhigh Hside). lia.
Qed.

(** X3: the first attempt decides the side of the fallback.  When the first
    candidate is not larger than the original, the final fallback size lies
    between its size and the original size; when it is larger, the final
    fallback size lies between the original size (excluded) and its size:
    a later candidate on the other side is never adopted. *)
Theorem fallback_keeps_first_side (fuel : nat) (s s0 : State F)
    (c1 : Candidate F) (rest : list (State F * Candidate F)) (sf : State F) :
  0 <= originalSize -> fallbackSize s = 0 -> 0 < newSize c1 ->
  searchLoop' fuel s = ((s0, c1) :: rest, Finished sf) ->
  (newSize c1 <= originalSize ->
   newSize c1 <= fallbackSize sf <= originalSize)
  /\ (originalSize < newSize c1 ->
      originalSize < fallbackSize sf <= newSize c1).
Proof.
  intros Horig Hz Hpos Hrun.
  destruct fuel as [| fuel]; [discriminate |].
  rewrite searchLoop_step in Hrun.
  destruct (attempt s <=? loops); [| discriminate].
  destruct (body' s) as [| | c s'] eqn:Hb; try discriminate.
  destruct (searchLoop' fuel _) as [tr' e] eqn:Hrest.
  injection Hrun as <- <- <- ->.
  pose proof (body_fallback s c s' Hb) as Hfb. cbv zeta in Hfb.
  rewrite Hz in Hfb. simpl in Hfb.
  assert (Hs' : fallbackSize s' = newSize c).
  { destruct Hfb as [(Hcond & _) | (_ & Hs' & _)]; [lia | exact Hs']. }
  destruct (searchLoop_fallback_side fuel Horig
              (setAttempt (GoInt.add (attempt s') 1) s') tr' sf)
    as [Hl Hh]; [simpl; lia | exact Hrest |].
  simpl in Hl, Hh. rewrite Hs' in Hl, Hh. split; assumption.
Qed.

End Candidates.

Section Bisection.

Context {F : Type} {FL : Float64 F} {CD : Codec}.

Variable originalGray : Image.
Variable originalSize : Z.
Variable target : F.
Variable loops : Z.

Local Abbreviation body' := (body originalGray originalSize target loops).
Local Abbreviation searchLoop' := (searchLoop originalGray originalSize target loops).

(** What one completed body does to the bracket: an early stop leaves it
    alone, every other attempt moves one bound just past the probe. *)
Lemma body_moves (s : State F) (c : Candidate F) (s' : State F) :
  bracketOk s -> body' s = Next c s' ->
  quality c = probe s
  /\ minQ s <= quality c < maxQ s
  /\ ((attempt s' = loops /\ minQ s' = minQ s /\ maxQ s' = maxQ s)
      \/ (attempt s' = attempt s
          /\ ((minQ s' = minQ s /\ maxQ s' = Z.max (quality c - 1) (minQ s))
              \/ (minQ s' = quality c + 1 /\ maxQ s' = maxQ s)))).
Proof.
  intros (Hlo & Hle & Hhi) Hb.
  apply body_next in Hb. destruct Hb as (Hne & Hq & Hs' & _).
  pose proof max_int_value as Hmax. pose proof min_int_value as Hmin.
  pose proof (probe_between s ltac:(lia) ltac:(lia) ltac:(lia)) as Hp.
  destruct (updateFallback_keeps originalSize c
              (updateBest target c (decide originalSize target loops c s)))
    as (Ha1 & Hm1 & HM1 & _).
  destruct (updateBest_keeps target c (decide originalSize target loops c s))
    as (Ha2 & Hm2 & HM2 & _).
  split; [exact Hq |]. split; [rewrite Hq; exact Hp |].
  rewrite Hs', Ha1, Hm1, HM1, Ha2, Hm2, HM2.
  unfold decide. rewrite Hq. unfold GoInt.sub, GoInt.add.
  rewrite (wrap_small (probe s - 1)) by lia.
  rewrite (wrap_small (probe s + 1)) by lia.
  repeat match goal with
         | |- context [if ?b then _ else _] => destruct b; simpl
         end;
    first [ left; repeat split; reflexivity
          | right; split; [reflexivity |]; left; split; reflexivity
          | right; split; [reflexivity |]; right; split; lia ].
Qed.

Lemma searchLoop_stopped (fuel : nat) (s : State F) :
  loops < attempt s -> fst (searchLoop' fuel s) = [].
Proof.
  intros Hgt. destruct fuel as [| fuel]; [reflexivity |].
  rewrite searchLoop_step.
  destruct (Z.leb_spec (attempt s) loops); [lia | reflexivity].
Qed.

Lemma log2_half (w w1 : Z) :
  1 <= w1 -> w1 <= w / 2 -> Z.log2 w1 < Z.log2 w.
Proof.
  intros H1 Hh.
  pose proof (Z.mul_div_le w 2 ltac:(lia)) as Hd.
  assert (Hw : 0 < w) by lia.
  apply Z.log2_lt_pow2; [lia |].
  pose proof (Z.log2_spec w Hw) as [_ Hup].
  rewrite Z.pow_succ_r in Hup by apply Z.log2_nonneg. lia.
Qed.

(** The bracket each later attempt sees lies inside the bracket of an
    earlier attempt and no longer contains the quality probed there. *)
Lemma searchLoop_probes (fuel : nat) :
  forall s, bracketOk s ->
  Forall (fun sc : State F * Candidate F =>
            minQ s <= quality (snd sc) < maxQ s)
         (fst (searchLoop' fuel s)).
Proof.
  induction fuel as [| fuel IH]; intros s Hs; [constructor |].
  rewrite searchLoop_step.
  destruct (attempt s <=? loops); [| constructor].
  destruct (body' s) as [| | c s'] eqn:Hb; try constructor.
  destruct (body_bracket _ _ _ _ s c s' Hs Hb) as (Hok & _ & _).
  destruct (body_moves s c s' Hs Hb) as (_ & Hq & Hmove).
  specialize (IH (setAttempt (GoInt.add (attempt s') 1) s') Hok).
  destruct (searchLoop' fuel _) as [tr e]. simpl in *.
  constructor; [exact Hq |].
  eapply Forall_impl; [| exact IH]. intros [s2 c2] H2. simpl in *.
  destruct Hs as (Hlo & Hle & Hhi).
  destruct Hmove as [(_ & Hm & HM) | (_ & [(Hm & HM) | (Hm & HM)])]; lia.
Qed.

(** X4: the search never probes a quality outside the bracket it was
    given, and never the upper bound itself: every evaluated quality [q]
    satisfies [minQ <= q < maxQ] for the initial bracket. *)
Theorem probes_stay_below_max (fuel : nat) (s : State F) :
  bracketOk s ->
  Forall (fun sc : State F * Candidate F =>
            minQ s <= quality (snd sc) < maxQ s
            /\ quality (snd sc) <> maxQ s)
         (fst (searchLoop' fuel s)).
Proof.
  intros Hs. eapply Forall_impl; [| exact (searchLoop_probes fuel s Hs)].
  intros sc H. cbv beta in H. split; [exact H | lia].
Qed.

(** X5: with fewer than [2^63 - 1] attempts allowed, no quality is
    evaluated twice in one run. *)
Theorem probes_are_distinct (fuel : nat) :
  loops < GoInt.max_int ->
  forall s, 1 <= attempt s -> bracketOk s ->
  NoDup (map (fun sc : State F * Candidate F => quality (snd sc))
             (fst (searchLoop' fuel s))).
Proof.
  intros Hloops. pose proof max_int_value as Hmax. pose proof min_int_value as Hmin.
  induction fuel as [| fuel IH]; intros s Ha Hs; [constructor |].
  rewrite searchLoop_step.
  destruct (Z.leb_spec (attempt s) loops) as [Hle | Hgt]; [| constructor].
  destruct (body' s) as [| | c s'] eqn:Hb; try constructor.
  destruct (body_bracket _ _ _ _ s c s' Hs Hb) as (Hok & _ & _).
  destruct (body_moves s c s' Hs Hb) as (_ & Hq & Hmove).
  assert (Hnext : GoInt.add (attempt s') 1 = attempt s' + 1).
  { unfold GoInt.add. apply wrap_small.
    destruct Hmove as [(Hst & _) | (Hst & _)]; lia. }
  rewrite Hnext.
  destruct Hmove as [(Hst & _) | (Hst & Hmove)].
  - pose proof (searchLoop_stopped fuel (setAttempt (attempt s' + 1) s')
                  ltac:(simpl; lia)) as Hnil.
    destruct (searchLoop' fuel _) as [tr e]. simpl in Hnil. subst tr.
    simpl. constructor; [intros [] | constructor].
  - pose proof (searchLoop_probes fuel (setAttempt (attempt s' + 1) s') Hok)
      as Hin.
    specialize (IH (setAttempt (attempt s' + 1) s') ltac:(simpl; lia) Hok).
    destruct (searchLoop' fuel _) as [tr e]. simpl in *.
    constructor; [| exact IH].
    intros Hmem. apply in_map_iff in Hmem. destruct Hmem as (sc & Hsc & Hmem).
    rewrite Forall_forall in Hin. specialize (Hin sc Hmem). simpl in Hin.
    destruct Hs as (Hlo & Hle' & Hhi).
    destruct Hmove as [(Hm & HM) | (Hm & HM)]; lia.
Qed.

(** X6: every attempt that is not an early stop at least halves the
    bracket, so with fewer than [2^63 - 1] attempts allowed a run evaluates
    at most [log2 (maxQ - minQ) + 1] qualities, whatever [-l] allows: at
    most 7 for brackets inside [0, 100]. *)
Theorem attempts_are_logarithmic (fuel : nat) :
  loops < GoInt.max_int ->
  forall s, 1 <= attempt s -> bracketOk s ->
  (List.length (fst (searchLoop' fuel s)) <= attemptsBound (width s))%nat
  /\ (attemptsBound (width s) <= 7)%nat.
Proof.
  intros Hloops. pose proof max_int_value as Hmax. pose proof min_int_value as Hmin.
  assert (Hseven : forall s : State F, bracketOk s ->
                     (attemptsBound (width s) <= 7)%nat).
  { intros s (Hlo & Hle & Hhi). unfold attemptsBound, width.
    destruct (Z.leb_spec (maxQ s - minQ s) 0); [lia |].
    assert (Z.log2 (maxQ s - minQ s) <= Z.log2 100)
      by (apply Z.log2_le_mono; lia).
    change (Z.log2 100) with 6 in *. pose proof (Z.log2_nonneg (maxQ s - minQ s)).
    lia. }
  induction fuel as [| fuel IH]; intros s Ha Hs;
    (split; [| apply Hseven; exact Hs]); [simpl; lia |].
  rewrite searchLoop_step.
  destruct (Z.leb_spec (attempt s) loops) as [Hle | Hgt]; [| simpl; lia].
  destruct (body' s) as [| | c s'] eqn:Hb; try (simpl; lia).
  destruct (body_bracket _ _ _ _ s c s' Hs Hb) as (Hok & _ & _).
  destruct (body_moves s c s' Hs Hb) as (_ & Hq & Hmove).
  assert (Hnext : GoInt.add (attempt s') 1 = attempt s' + 1).
  { unfold GoInt.add. apply wrap_small.
    destruct Hmove as [(Hst & _) | (Hst & _)]; lia. }
  rewrite Hnext.
  assert (Hw : 1 <= width s) by (unfold width; lia).
  assert (Hbound : attemptsBound (width s) = S (Z.to_nat (Z.log2 (width s)))).
  { unfold attemptsBound. destruct (Z.leb_spec (width s) 0); [lia | reflexivity]. }
  rewrite Hbound.
  destruct Hmove as [(Hst & _) | (Hst & Hmove)].
  - pose proof (searchLoop_stopped fuel (setAttempt (attempt s' + 1) s')
                  ltac:(simpl; lia)) as Hnil.
    destruct (searchLoop' fuel _) as [tr e]. simpl in Hnil. subst tr.
    simpl. lia.
  - destruct (IH (setAttempt (attempt s' + 1) s') ltac:(simpl; lia) Hok)
      as [Hlen _].
    assert (Hhalf : width (setAttempt (attempt s' + 1) s') <= width s / 2).
    { unfold width in *. simpl. destruct Hs as (Hlo & Hle' & Hhi).
      pose proof (probe_floor s ltac:(lia) ltac:(lia) ltac:(lia)) as Hpf.
      destruct (body_moves s c s' (conj Hlo (conj Hle' Hhi)) Hb) as (Hqp & _ & _).
      rewrite Hqp in *.
      pose proof (Z.div_mod (minQ s + maxQ s) 2 ltac:(lia)) as Hdm.
      pose proof (Z.mod_pos_bound (minQ s + maxQ s) 2 ltac:(lia)) as Hmb.
      pose proof (Z.div_mod (maxQ s - minQ s) 2 ltac:(lia)) as Hdm2.
      pose proof (Z.mod_pos_bound (maxQ s - minQ s) 2 ltac:(lia)) as Hmb2.
      destruct Hmove as [(Hm & HM) | (Hm & HM)]; lia. }
    set (s1 := setAttempt (attempt s' + 1) s') in *.
    assert (Hw1 : 0 <= width s1).
    { destruct Hok as (H1 & H2 & H3). unfold width, s1. simpl. lia. }
    assert (Hb1 : (attemptsBound (width s1) <= Z.to_nat (Z.log2 (width s)))%nat).
    { unfold attemptsBound. destruct (Z.leb_spec (width s1) 0); [lia |].
      pose proof (log2_half (width s) (width s1) ltac:(lia) Hhalf).
      pose proof (Z.log2_nonneg (width s1)). lia. }
    destruct (searchLoop' fuel s1) as [tr e]. simpl in *. lia.
Qed.

End Bisection.

(** * Further properties of the statistics, in exact arithmetic *)

Section ExactMetric.

Open Scope R_scope.

(** X7: a pixel whose red channel is a 16-bit value has a luminance between
    0 and 255, as the comment of [getPixVal] announces. *)
Theorem getPixVal_range (c : Color) :
  (0 <= cR c < 65536)%Z -> 0 <= getPixVal (F := R) c <= 255.
Proof.
  intros Hc. unfold getPixVal. cbn [f_ofZ Exact].
  rewrite Z.shiftr_div_pow2 by lia. change (2 ^ 8)%Z with 256%Z.
  assert (H : (0 <= cR c / 256 <= 255)%Z).
  { split; [apply Z.div_pos; lia |].
    apply Z.lt_succ_r. apply Z.div_lt_upper_bound; lia. }
  split; apply IZR_le; lia.
Qed.

Lemma getPixVal_nonneg (c : Color) :
  (0 <= cR c)%Z -> 0 <= getPixVal (F := R) c.
Proof.
  intros Hc. unfold getPixVal. cbn [f_ofZ Exact].
  apply IZR_le. apply Z.shiftr_nonneg. exact Hc.
Qed.

(** X8: on an image of [N >= 2] pixels [mean] is the arithmetic mean of the
    luminance multiplied by [N / (N - 1)]. *)
Theorem mean_is_scaled_arithmetic_mean (img : Image) :
  (2 <= maxX img * maxY img <= GoInt.max_int)%Z ->
  mean (F := R) img
  = arithmeticMean (F := R) img
    * (IZR (maxX img * maxY img) / IZR (maxX img * maxY img - 1)).
Proof.
  intros Hn. unfold mean, arithmeticMean, dim.
  destruct (nMinus1_exact _ _ Hn) as [Hn1 Hpos]. rewrite Hn1.
  cbn [f_div f_ofZ Exact].
  assert (HN : 2 <= IZR (maxX img * maxY img)) by (apply IZR_le; lia).
  field. split; lra.
Qed.

Lemma fold_row_ext (f g : Z -> R) (ys : list Z) (acc : R) :
  (forall y, f y = g y) ->
  fold_left (fun a y => f_add a (f y)) ys acc
  = fold_left (fun a y => f_add a (g y)) ys acc.
Proof.
  intros Hfg. revert acc.
  induction ys as [| y ys IH]; intros acc; simpl; [reflexivity |].
  rewrite Hfg. apply IH.
Qed.

Lemma pixelLoop_ext (w h : Z) (f g : Z -> Z -> R) (acc : R) :
  (forall x y, f x y = g x y) ->
  pixelLoop w h f acc = pixelLoop w h g acc.
Proof.
  intros Hfg. unfold pixelLoop. revert acc.
  induction (upto w) as [| x xs IH]; intros acc; simpl; [reflexivity |].
  rewrite (fold_row_ext (f x) (g x)) by (intros y; apply Hfg). apply IH.
Qed.

(** X9: in exact arithmetic the similarity does not depend on the order of
    its two arguments. *)
Theorem ssim_symmetric (x y : Image) :
  ssim (F := R) x y = ssim (F := R) y x.
Proof.
  unfold ssim, covar.
  destruct (equalDim x y) eqn:Hxy.
  - assert (Hyx : equalDim y x = true).
    { apply equalDim_true in Hxy. apply equalDim_true. destruct Hxy. auto. }
    rewrite Hyx. simpl negb. cbv iota.
    apply equalDim_true in Hxy. destruct Hxy as [Hw Hh].
    unfold dim. rewrite <- Hw, <- Hh.
    rewrite (pixelLoop_ext (maxX x) (maxY x)
               (fun i j => f_mul (f_sub (getPixVal (At y i j)) (mean y))
                                 (f_sub (getPixVal (At x i j)) (mean x)))
               (fun i j => f_mul (f_sub (getPixVal (At x i j)) (mean x))
                                 (f_sub (getPixVal (At y i j)) (mean y))))
      by (intros i j; cbn [f_mul Exact]; ring).
    unfold two, pow2. cbn [f_mul f_div f_add f_ofZ Exact].
    f_equal; ring.
  - assert (Hyx : equalDim y x = false).
    { apply equalDim_false in Hxy. apply equalDim_false.
      destruct Hxy; [left | right]; auto. }
    rewrite Hyx. reflexivity.
Qed.

(** The sums of the three loops combine term by term. *)
Lemma fold_row_combine (f g k : Z -> R) (ys : list Z) (af ag ak : R) :
  fold_left (fun a y => f_add a (f y)) ys af
  + fold_left (fun a y => f_add a (g y)) ys ag
  - 2 * fold_left (fun a y => f_add a (k y)) ys ak
  = fold_left (fun a y => f_add a (f y + g y - 2 * k y)) ys (af + ag - 2 * ak).
Proof.
  revert af ag ak.
  induction ys as [| y ys IH]; intros af ag ak; simpl; [reflexivity |].
  rewrite IH. f_equal. ring.
Qed.

Lemma pixelLoop_combine (w h : Z) (f g k : Z -> Z -> R) (af ag ak : R) :
  pixelLoop w h f af + pixelLoop w h g ag - 2 * pixelLoop w h k ak
  = pixelLoop w h (fun x y => f x y + g x y - 2 * k x y) (af + ag - 2 * ak).
Proof.
  unfold pixelLoop. revert af ag ak.
  induction (upto w) as [| x xs IH]; intros af ag ak; simpl; [reflexivity |].
  rewrite IH. f_equal. apply fold_row_combine.
Qed.

Lemma variance_exact (img : Image) :
  (2 <= maxX img * maxY img <= GoInt.max_int)%Z ->
  pow2 (stdev (F := R) img)
  = pixelLoop (maxX img) (maxY img)
      (fun x y => (getPixVal (At img x y) - mean img)
                  * (getPixVal (At img x y) - mean img)) 0
    / IZR (maxX img * maxY img - 1).
Proof.
  intros Hn. unfold stdev, dim.
  destruct (nMinus1_exact _ _ Hn) as [Hn1 Hpos]. rewrite Hn1.
  unfold pow2, zero. cbn [f_mul f_div f_sub f_sqrt f_ofZ Exact].
  rewrite sqrt_sqrt; [reflexivity |].
  apply Rmult_le_pos.
  - apply pixelLoop_nonneg; [intros x y; apply Rle_0_sqr | lra].
  - apply Rlt_le, Rinv_0_lt_compat. lra.
Qed.

Lemma mean_nonneg (img : Image) :
  (2 <= maxX img * maxY img <= GoInt.max_int)%Z ->
  (forall x y, (0 <= cR (At img x y))%Z) ->
  0 <= mean (F := R) img.
Proof.
  intros Hn Hpix. unfold mean, dim.
  destruct (nMinus1_exact _ _ Hn) as [Hn1 Hpos]. rewrite Hn1.
  cbn [f_div Exact]. apply Rmult_le_pos.
  - apply pixelLoop_nonneg.
    + intros x y. apply getPixVal_nonneg. apply Hpix.
    + unfold zero. cbn [f_ofZ Exact]. lra.
  - apply Rlt_le, Rinv_0_lt_compat. lra.
Qed.

(** X10: in exact arithmetic, on images of at least 2 pixels with
    non-negative channels, the similarity never exceeds 1. *)
Theorem ssim_at_most_one (x y : Image) :
  (2 <= maxX x * maxY x <= GoInt.max_int)%Z ->
  (2 <= maxX y * maxY y <= GoInt.max_int)%Z ->
  (forall i j, (0 <= cR (At x i j))%Z) ->
  (forall i j, (0 <= cR (At y i j))%Z) ->
  ssim (F := R) x y <= 1.
Proof.
  intros Hnx Hny Hpx Hpy.
  pose proof (mean_nonneg x Hnx Hpx) as Ha.
  pose proof (mean_nonneg y Hny Hpy) as Hb.
  pose proof (variance_exact x Hnx) as Hvx.
  pose proof (variance_exact y Hny) as Hvy.
  pose proof C1_pos as HC1. pose proof C2_pos as HC2.
  unfold ssim, covar.
  destruct (equalDim x y) eqn:Hxy; simpl negb; cbv iota;
    [| unfold zero; cbn [f_ofZ Exact]; lra].
  apply equalDim_true in Hxy. destruct Hxy as [Hw Hh].
  unfold dim.
  destruct (nMinus1_exact _ _ Hnx) as [Hn1 Hpos]. rewrite Hn1.
  rewrite <- Hw, <- Hh in Hvy.
  set (a := mean x) in *. set (b := mean y) in *.
  set (vx := pow2 (stdev x)) in *. set (vy := pow2 (stdev y)) in *.
  unfold zero, two. cbn [f_mul f_div f_add f_sub f_ofZ Exact].
  set (n := IZR (maxX x * maxY x - 1)) in *.
  set (sxy := pixelLoop _ _ _ _).
  set (sxx := pixelLoop _ _ _ _) in Hvx.
  set (syy := pixelLoop _ _ _ _) in Hvy.
  assert (Hcs : 0 <= sxx + syy - 2 * sxy).
  { unfold sxx, syy, sxy. rewrite pixelLoop_combine.
    apply pixelLoop_nonneg; [| lra].
    intros i j.
    replace ((getPixVal (At x i j) - a) * (getPixVal (At x i j) - a)
             + (getPixVal (At y i j) - b) * (getPixVal (At y i j) - b)
             - 2 * ((getPixVal (At x i j) - a) * (getPixVal (At y i j) - b)))
      with (Rsqr ((getPixVal (At x i j) - a) - (getPixVal (At y i j) - b)))
      by (unfold Rsqr; ring).
    apply Rle_0_sqr. }
  assert (Hninv : 0 < / n) by (apply Rinv_0_lt_compat; lra).
  assert (Hcov : 2 * (sxy / n) <= vx + vy).
  { rewrite Hvx, Hvy. unfold Rdiv.
    replace (sxx * / n + syy * / n - 2 * (sxy * / n))
      with ((sxx + syy - 2 * sxy) * / n) in * by ring.
    assert (0 <= (sxx + syy - 2 * sxy) * / n)
      by (apply Rmult_le_pos; lra).
    lra. }
  assert (Hvx0 : 0 <= vx).
  { rewrite Hvx. apply Rmult_le_pos; [| lra].
    apply pixelLoop_nonneg; [intros i j; apply Rle_0_sqr | lra]. }
  assert (Hvy0 : 0 <= vy).
  { rewrite Hvy. apply Rmult_le_pos; [| lra].
    apply pixelLoop_nonneg; [intros i j; apply Rle_0_sqr | lra]. }
  unfold pow2 at 1 2. cbn [f_mul Exact].
  set (c := sxy / n) in *.
  assert (Hab : 2 * a * b <= a * a + b * b).
  { pose proof (Rle_0_sqr (a - b)) as Hsq. unfold Rsqr in Hsq. lra. }
  assert (Hab0 : 0 <= 2 * a * b).
  { apply Rmult_le_pos; [apply Rmult_le_pos; lra | exact Hb]. }
  set (N1 := 2 * a * b + C1). set (D1 := a * a + b * b + C1).
  set (N2 := 2 * c + C2). set (D2 := vx + vy + C2).
  assert (HN1 : 0 < N1 <= D1) by (unfold N1, D1; lra).
  assert (HN2 : N2 <= D2) by (unfold N2, D2; lra).
  assert (HD2 : 0 < D2) by (unfold D2; lra).
  assert (HD : 0 < D1 * D2) by (apply Rmult_lt_0_compat; lra).
  apply (Rmult_le_reg_r (D1 * D2)); [exact HD |].
  unfold Rdiv. rewrite Rmult_assoc, Rinv_l by lra.
  rewrite Rmult_1_r, Rmult_1_l.
  destruct (Rle_dec 0 N2) as [Hpos2 | Hneg2].
  - apply Rmult_le_compat; lra.
  - assert (Hprod : 0 <= N1 * (- N2)) by (apply Rmult_le_pos; lra). lra.
Qed.

End ExactMetric.

(** * Further properties of the evaluation and of [main] *)

Section EvaluationErrors.

Context {F : Type} {FL : Float64 F} {CD : Codec}.

Lemma convertToGray_dim (img : Image) :
  maxX (convertToGray img) = maxX img /\ maxY (convertToGray img) = maxY img.
Proof. unfold convertToGray, dim. split; reflexivity. Qed.

(** X11: [compare] reports an error exactly when the encoder fails or the
    decoder fails on the encoder's output. *)
Theorem compare_fails_iff_codec_fails (img : Image) (q : Z) :
  snd (compare img q) <> None <->
  (exists err, jpegEncode img q = inl err)
  \/ (exists raw err, jpegEncode img q = inr raw /\ jpegDecode raw = inl err).
Proof.
  unfold compare, encodeToJPEGBytes.
  destruct (jpegEncode img q) as [err | raw] eqn:He; simpl.
  - split; [intros _; left; exists err; reflexivity | intros _; discriminate].
  - destruct (jpegDecode raw) as [err | decoded] eqn:Hd; simpl.
    + split; [| intros _; discriminate].
      intros _. right. exists raw, err. split; [reflexivity | exact Hd].
    + split; [intros H; contradiction H; reflexivity |].
      intros [[err H] | (raw' & err & H1 & H2)]; [discriminate |].
      injection H1 as <-. congruence.
Qed.

(** X12: when the decoder returns an image whose width or height differs
    from the reference, [compare] reports no error: the candidate gets the
    index 0.0. *)
Theorem compare_mismatch_is_silent (img : Image) (q : Z)
    (raw : list Byte.byte) (decoded : Image) :
  jpegEncode img q = inr raw ->
  jpegDecode raw = inr decoded ->
  (maxX decoded <> maxX img \/ maxY decoded <> maxY img) ->
  compare img q = (zero, raw, None).
Proof.
  intros He Hd Hdim. unfold compare, encodeToJPEGBytes. rewrite He, Hd.
  assert (Hneq : equalDim img (convertToGray decoded) = false).
  { apply equalDim_false. destruct (convertToGray_dim decoded) as [Hx Hy].
    rewrite Hx, Hy. destruct Hdim as [H | H]; [left | right]; congruence. }
  unfold ssim, covar. rewrite Hneq. reflexivity.
Qed.

End EvaluationErrors.

Section MainFacts.

Context {F : Type} {FL : Float64 F} {CD : Codec}.
Variable W : World.

Lemma writes_app (l1 l2 : list (Event F)) :
  writes (l1 ++ l2) = writes l1 ++ writes l2.
Proof. unfold writes. apply flat_map_app. Qed.

Lemma finalLines_app (l1 l2 : list (Event F)) :
  finalLines (l1 ++ l2) = finalLines l1 ++ finalLines l2.
Proof. unfold finalLines. apply flat_map_app. Qed.

Lemma attemptLines_app (l1 l2 : list (Event F)) :
  attemptLines (l1 ++ l2) = attemptLines l1 ++ attemptLines l2.
Proof. unfold attemptLines. apply flat_map_app. Qed.

Lemma printAttempts_lines (tr : list (State F * Candidate F)) :
  writes (printAttempts tr) = []
  /\ finalLines (printAttempts tr) = []
  /\ attemptLines (printAttempts tr)
     = map (fun sc => (attempt (fst sc), quality (snd sc), newSize (snd sc))) tr.
Proof.
  induction tr as [| [s c] tr (IH1 & IH2 & IH3)]; [repeat split |].
  simpl. rewrite IH3. repeat split; assumption.
Qed.

Lemma save_lines (p : string) (data : list Byte.byte) :
  finalLines (fst (save (F := F) W p data)) = [].
Proof.
  unfold save. destruct (osCreate W p); [reflexivity |].
  destruct (fileWrite W p data). reflexivity.
Qed.

Lemma selectOutcome_abnormal (original : Image) (originalSize : Z)
    (a : Args F) (s : State F) :
  snd (selectOutcome W original originalSize a s) <> Returned ->
  writes (fst (selectOutcome W original originalSize a s)) = [].
Proof.
  unfold selectOutcome.
  destruct (bestSize s <? originalSize).
  - destruct (encodeToJPEGBytes original (bestQ s)) as [data [err |]]; simpl;
      [reflexivity | intros H; contradiction H; reflexivity].
  - destruct (noCopy a); [simpl; intros H; contradiction H; reflexivity |].
    destruct (isJpeg W (src a)).
    + destruct (copyFile W (src a) (dest a)) as [n [err |]]; simpl;
        [reflexivity | intros H; contradiction H; reflexivity].
    + destruct (encodeToJPEGBytes original (fallbackQ s)) as [data [err |]];
        simpl; [reflexivity | intros H; contradiction H; reflexivity].
Qed.

(** X13: [save] runs only on the way to a normal return: a run that ends in
    a panic or in [os.Exit], or that is still searching, has written no
    byte to the destination. *)
Theorem abnormal_runs_write_nothing (fuel : nat) (a : Args F) :
  snd (main W fuel a) <> Returned ->
  writes (fst (main W fuel a)) = [].
Proof.
  unfold main.
  destruct (help a); [reflexivity |].
  destruct (checkArgs W _ _ _ _ _ _ _); simpl negb; cbv iota; [| reflexivity].
  destruct (readImage W (src a)) as [err | original]; [reflexivity |].
  destruct (getFilesize W (src a)) as [size [err |]]; [reflexivity |].
  destruct (searchLoop _ _ _ _ fuel _) as [tr [sf | |]].
  - pose proof (selectOutcome_abnormal original size a sf) as Hsel.
    destruct (selectOutcome W original size a sf) as [ev ex]. simpl in *.
    intros Hex. rewrite writes_app, (proj1 (printAttempts_lines tr)).
    simpl. apply Hsel. exact Hex.
  - intros _. simpl. apply (proj1 (printAttempts_lines tr)).
  - intros _. simpl. apply (proj1 (printAttempts_lines tr)).
Qed.

(** X14: a failure of the encoder at the first attempt ends the run in the
    panic "Error when comparing images" right after the size of the
    original was printed. *)
Theorem encoder_failure_panics (fuel : nat) (a : Args F) (original : Image)
    (size : Z) (err : error) :
  help a = false ->
  checkArgs W (src a) (dest a) (force a) (argMax a) (argMin a) (argTarget a)
            (argLoops a) = true ->
  readImage W (src a) = inr original ->
  getFilesize W (src a) = (size, None) ->
  argMin a <> argMax a ->
  jpegEncode (convertToGray original) (probe (initialState a size)) = inl err ->
  main W (S fuel) a
  = ([PrintOriginalSize size], Panicked "Error when comparing images").
Proof.
  intros Hh Hc Hr Hs Hne Henc.
  rewrite (main_search W (S fuel) a original size Hh Hc Hr Hs).
  rewrite searchLoop_step.
  apply checkArgs_true_iff in Hc. destruct Hc as (_ & _ & _ & _ & _ & _ & _ & Hl).
  replace (attempt (initialState a size) <=? argLoops a) with true
    by (symmetry; apply Z.leb_le; simpl; lia).
  unfold body.
  replace (minQ (initialState a size) =? maxQ (initialState a size)) with false
    by (symmetry; apply Z.eqb_neq; simpl; exact Hne).
  unfold compare, encodeToJPEGBytes. rewrite Henc. reflexivity.
Qed.

(** X15: every "Final image" line of a run either repeats the quality and
    the size of an attempt the run printed, or shows quality 0. *)
Theorem final_report_is_an_attempt_or_zero (fuel : nat) (a : Args F)
    (original : Image) (size : Z) (q sz : Z) :
  help a = false ->
  checkArgs W (src a) (dest a) (force a) (argMax a) (argMin a) (argTarget a)
            (argLoops a) = true ->
  readImage W (src a) = inr original ->
  getFilesize W (src a) = (size, None) ->
  0 <= size ->
  In (q, sz) (finalLines (fst (main W fuel a))) ->
  q = 0 \/ exists n, In (n, q, sz) (attemptLines (fst (main W fuel a))).
Proof.
  intros Hh Hc Hr Hs Hsize.
  rewrite (main_search W fuel a original size Hh Hc Hr Hs).
  destruct (searchLoop _ _ _ _ fuel _) as [tr [sf | |]] eqn:Hrun;
    try (simpl; rewrite (proj1 (proj2 (printAttempts_lines tr)));
         intros []).
  destruct (printAttempts_lines tr) as (_ & Hfin & Hatt).
  assert (Hfound : forall sc : State F * Candidate F,
            In sc tr -> quality (snd sc) = q -> newSize (snd sc) = sz ->
            forall ev, exists n,
              In (n, q, sz)
                 (attemptLines (PrintOriginalSize size :: printAttempts tr ++ ev))).
  { intros sc Hin Hq Hz ev. exists (attempt (fst sc)).
    simpl. rewrite attemptLines_app, Hatt. apply in_or_app. left.
    apply in_map_iff. exists sc. split; [congruence | exact Hin]. }
  unfold selectOutcome.
  destruct (Z.ltb_spec (bestSize sf) size) as [Hlt | Hge].
  - destruct (encodeToJPEGBytes original (bestQ sf)) as [data [e |]]; simpl.
    + rewrite app_nil_r, Hfin. intros [].
    + rewrite !finalLines_app, Hfin, save_lines. simpl.
      intros [Heq | []]. injection Heq as <- <-.
      destruct (searchLoop_best _ _ _ _ fuel _ tr sf Hrun) as (_ & _ & Hset & _).
      destruct Hset as (sc & Hin & Hq & Hz & _); [simpl; exact Hlt |].
      right. apply (Hfound sc Hin Hq Hz).
  - destruct (noCopy a); [simpl; rewrite finalLines_app, Hfin; intros [] |].
    destruct (isJpeg W (src a)).
    + destruct (copyFile W (src a) (dest a)) as [n [e |]]; simpl;
        rewrite finalLines_app, Hfin; intros [].
    + assert (Hcase : In (q, sz) [(fallbackQ sf, fallbackSize sf)] ->
                q = 0 \/ exists sc : State F * Candidate F,
                           In sc tr /\ quality (snd sc) = q
                           /\ newSize (snd sc) = sz).
      { intros [Heq | []]. injection Heq as <- <-.
        assert (H0 : 0 <= fallbackSize (initialState a size)) by (simpl; lia).
        destruct (searchLoop_fallback_origin _ _ _ _ fuel Hsize
                    (initialState a size) tr sf H0 Hrun)
          as [_ [(Hq & _) | (sc & Hin & Hq & Hz & _)]].
        - left. exact Hq.
        - right. exists sc. auto. }
      destruct (encodeToJPEGBytes original (fallbackQ sf)) as [data [e |]];
        simpl; rewrite !finalLines_app, Hfin; simpl;
        rewrite ?finalLines_app, ?save_lines; simpl; intros Hin;
        (destruct (Hcase Hin) as [H0 | (sc & Hsc & Hq & Hz)];
         [left; exact H0 | right; apply (Hfound sc Hsc Hq Hz)]).
Qed.

(** X16: [checkArgs] accepts exactly when the source exists, the destination
    is named and is absent or may be overwritten, the maximum is in
    [1, 100], the minimum in [0, 99], the target neither [<= 0] nor [> 1],
    and the number of attempts positive. *)
Theorem checkArgs_accepts_iff (src dest : string) (force : bool) (max min : Z)
    (target : F) (loops : Z) :
  checkArgs W src dest force max min target loops = true <->
  statNotExist W src = false
  /\ (force = true \/ statOk W dest = false)
  /\ String.eqb dest "" = false
  /\ 1 <= max <= 100
  /\ 0 <= min <= 99
  /\ f_leb target zero = false
  /\ f_ltb (f_ofZ 1) target = false
  /\ 0 < loops.
Proof. exact (checkArgs_true_iff W src dest force max min target loops). Qed.

End MainFacts.

(** * The further properties on sample runs *)

Lemma best_is_smallest_qualifying_witness :
  let run := sampleRun goodCodec in
  let s := initialState twoAttempts 100 in
  let sf := finalState run s in
  run = (fst run, Finished sf)
  /\ bestSize sf <= bestSize s
  /\ (forall sc, In sc (fst run) ->
        f_leb (argTarget twoAttempts) (index (snd sc)) = true ->
        bestSize sf <= newSize (snd sc))
  /\ (bestSize sf < bestSize s ->
      exists sc, In sc (fst run) /\ quality (snd sc) = bestQ sf
                 /\ newSize (snd sc) = bestSize sf
                 /\ index (snd sc) = bestIndex sf
                 /\ f_leb (argTarget twoAttempts) (index (snd sc)) = true)
  /\ (bestSize sf = bestSize s ->
      bestQ sf = bestQ s /\ bestIndex sf = bestIndex s).
Proof.
  intros run s sf.
  assert (H : run = (fst run, Finished sf)) by (vm_compute; reflexivity).
  split; [exact H |].
  exact (best_is_smallest_qualifying (CD := goodCodec)
           (convertToGray (CD := goodCodec) ramp) 100 (argTarget twoAttempts)
           (argLoops twoAttempts) 7 s (fst run) sf H).
Defined.

Lemma fallback_is_initial_or_evaluated_witness :
  let run := sampleRun climbingCodec in
  let s := initialState twoAttempts 100 in
  let sf := finalState run s in
  (0 <= 100 /\ 0 <= fallbackSize s /\ run = (fst run, Finished sf))
  /\ ((fallbackQ sf = fallbackQ s /\ fallbackIndex sf = fallbackIndex s)
      \/ exists sc, In sc (fst run) /\ quality (snd sc) = fallbackQ sf
                    /\ newSize (snd sc) = fallbackSize sf
                    /\ index (snd sc) = fallbackIndex sf).
Proof.
  intros run s sf.
  assert (H1 : 0 <= 100) by lia.
  assert (H2 : 0 <= fallbackSize s) by (simpl; lia).
  assert (H3 : run = (fst run, Finished sf)) by (vm_compute; reflexivity).
  split; [auto |].
  exact (fallback_is_initial_or_evaluated (CD := climbingCodec)
           (convertToGray (CD := climbingCodec) ramp) 100 (argTarget twoAttempts)
           (argLoops twoAttempts) 7 s (fst run) sf H1 H2 H3).
Defined.

Lemma fallback_keeps_first_side_witness :
  let run := sampleRun crossingCodec in
  let s := initialState twoAttempts 100 in
  let sf := finalState run s in
  let c1 := snd (hd (s, mkCandidate 0 zero 0) (fst run)) in
  (0 <= 100 /\ fallbackSize s = 0 /\ 0 < newSize c1
   /\ run = ((s, c1) :: tl (fst run), Finished sf))
  /\ (newSize c1 <= 100 -> newSize c1 <= fallbackSize sf <= 100)
  /\ (100 < newSize c1 -> 100 < fallbackSize sf <= newSize c1).
Proof.
  intros run s sf c1.
  assert (H1 : 0 <= 100) by lia.
  assert (H2 : fallbackSize s = 0) by reflexivity.
  assert (H3 : 0 < newSize c1) by reflexivity.
  assert (H4 : run = ((s, c1) :: tl (fst run), Finished sf))
    by (vm_compute; reflexivity).
  split; [auto |].
  exact (fallback_keeps_first_side (CD := crossingCodec)
           (convertToGray (CD := crossingCodec) ramp) 100 (argTarget twoAttempts)
           (argLoops twoAttempts) 7 s s c1 (tl (fst run)) sf H1 H2 H3 H4).
Defined.

Lemma probes_stay_below_max_witness :
  let s := initialState twoAttempts 100 in
  bracketOk s
  /\ Forall (fun sc : State PrimFloat.float * Candidate PrimFloat.float =>
               minQ s <= quality (snd sc) < maxQ s
               /\ quality (snd sc) <> maxQ s)
            (fst (sampleRun crossingCodec)).
Proof.
  intros s.
  assert (H : bracketOk s) by (vm_compute; repeat split; congruence).
  split; [exact H |].
  exact (probes_stay_below_max (CD := crossingCodec)
           (convertToGray (CD := crossingCodec) ramp) 100 (argTarget twoAttempts)
           (argLoops twoAttempts) 7 s H).
Defined.

Lemma probes_are_distinct_witness :
  let s := initialState twoAttempts 100 in
  (argLoops twoAttempts < GoInt.max_int /\ 1 <= attempt s /\ bracketOk s)
  /\ NoDup (map (fun sc : State PrimFloat.float * Candidate PrimFloat.float =>
                   quality (snd sc))
                (fst (sampleRun crossingCodec))).
Proof.
  intros s.
  assert (H1 : argLoops twoAttempts < GoInt.max_int) by reflexivity.
  assert (H2 : 1 <= attempt s) by (simpl; lia).
  assert (H3 : bracketOk s) by (vm_compute; repeat split; congruence).
  split; [auto |].
  exact (probes_are_distinct (CD := crossingCodec)
           (convertToGray (CD := crossingCodec) ramp) 100 (argTarget twoAttempts)
           (argLoops twoAttempts) 7 H1 s H2 H3).
Defined.

Lemma attempts_are_logarithmic_witness :
  let s := initialState twoAttempts 100 in
  (argLoops twoAttempts < GoInt.max_int /\ 1 <= attempt s /\ bracketOk s)
  /\ (List.length (fst (sampleRun crossingCodec)) <= attemptsBound (width s))%nat
  /\ (attemptsBound (width s) <= 7)%nat.
Proof.
  intros s.
  assert (H1 : argLoops twoAttempts < GoInt.max_int) by reflexivity.
  assert (H2 : 1 <= attempt s) by (simpl; lia).
  assert (H3 : bracketOk s) by (vm_compute; repeat split; congruence).
  split; [auto |].
  exact (attempts_are_logarithmic (CD := crossingCodec)
           (convertToGray (CD := crossingCodec) ramp) 100 (argTarget twoAttempts)
           (argLoops twoAttempts) 7 H1 s H2 H3).
Defined.

Lemma getPixVal_range_witness :
  (0 <= cR (gray8 255) < 65536)
  /\ (0 <= getPixVal (F := R) (gray8 255) <= 255)%R.
Proof.
  assert (H : 0 <= cR (gray8 255) < 65536) by (vm_compute; split; congruence).
  split; [exact H | exact (getPixVal_range (gray8 255) H)].
Defined.

Lemma mean_is_scaled_arithmetic_mean_witness :
  (2 <= maxX dimPair * maxY dimPair <= GoInt.max_int)
  /\ mean (F := R) dimPair
     = (arithmeticMean (F := R) dimPair
        * (IZR (maxX dimPair * maxY dimPair)
           / IZR (maxX dimPair * maxY dimPair - 1)))%R.
Proof.
  assert (H : 2 <= maxX dimPair * maxY dimPair <= GoInt.max_int)
    by (vm_compute; split; congruence).
  split; [exact H | exact (mean_is_scaled_arithmetic_mean dimPair H)].
Defined.

Lemma twoPixelImage_channels (left right : Color) :
  0 <= cR left -> 0 <= cR right ->
  forall i j, 0 <= cR (At (twoPixelImage left right) i j).
Proof.
  intros Hl Hr i j. unfold twoPixelImage. simpl.
  destruct ((i =? 0) && (j =? 0)); [exact Hl |].
  destruct ((i =? 1) && (j =? 0)); [exact Hr | simpl; lia].
Qed.

Lemma ssim_at_most_one_witness :
  ((2 <= maxX ramp * maxY ramp <= GoInt.max_int)
   /\ (2 <= maxX rampReversed * maxY rampReversed <= GoInt.max_int)
   /\ (forall i j, 0 <= cR (At ramp i j))
   /\ (forall i j, 0 <= cR (At rampReversed i j)))
  /\ (ssim (F := R) ramp rampReversed <= 1)%R.
Proof.
  assert (H1 : 2 <= maxX ramp * maxY ramp <= GoInt.max_int)
    by (vm_compute; split; congruence).
  assert (H2 : 2 <= maxX rampReversed * maxY rampReversed <= GoInt.max_int)
    by (vm_compute; split; congruence).
  assert (H3 : forall i j, 0 <= cR (At ramp i j))
    by (apply twoPixelImage_channels; vm_compute; congruence).
  assert (H4 : forall i j, 0 <= cR (At rampReversed i j))
    by (apply twoPixelImage_channels; vm_compute; congruence).
  split; [auto |].
  exact (ssim_at_most_one ramp rampReversed H1 H2 H3 H4).
Defined.

Lemma compare_fails_iff_codec_fails_witness :
  snd (compare (F := PrimFloat.float) (CD := brokenCodec) ramp 67) <> None
  /\ ((exists err, jpegEncode (Codec := brokenCodec) ramp 67 = inl err)
      \/ (exists raw err, jpegEncode (Codec := brokenCodec) ramp 67 = inr raw
                          /\ jpegDecode (Codec := brokenCodec) raw = inl err)).
Proof.
  assert (H : snd (compare (F := PrimFloat.float) (CD := brokenCodec) ramp 67)
              <> None) by (vm_compute; discriminate).
  split; [exact H |].
  exact (proj1 (compare_fails_iff_codec_fails (F := PrimFloat.float)
                  (CD := brokenCodec) ramp 67) H).
Defined.

Lemma compare_mismatch_is_silent_witness :
  let raw := repeat Byte.x00 50 in
  (jpegEncode (Codec := resizingCodec) ramp 67 = inr raw
   /\ jpegDecode (Codec := resizingCodec) raw = inr square
   /\ (maxX square <> maxX ramp \/ maxY square <> maxY ramp))
  /\ compare (F := PrimFloat.float) (CD := resizingCodec) ramp 67
     = (zero, raw, None).
Proof.
  intros raw.
  assert (H1 : jpegEncode (Codec := resizingCodec) ramp 67 = inr raw)
    by reflexivity.
  assert (H2 : jpegDecode (Codec := resizingCodec) raw = inr square)
    by reflexivity.
  assert (H3 : maxX square <> maxX ramp \/ maxY square <> maxY ramp)
    by (right; vm_compute; congruence).
  split; [auto |].
  exact (compare_mismatch_is_silent (F := PrimFloat.float) (CD := resizingCodec)
           ramp 67 raw square H1 H2 H3).
Defined.

Lemma abnormal_runs_write_nothing_witness :
  snd (main (CD := brokenCodec) (healthyWorld ramp 100) 7 twoAttempts)
  <> Returned
  /\ writes (fst (main (CD := brokenCodec) (healthyWorld ramp 100) 7
                       twoAttempts)) = [].
Proof.
  assert (H : snd (main (CD := brokenCodec) (healthyWorld ramp 100) 7
                        twoAttempts) <> Returned)
    by (vm_compute; discriminate).
  split; [exact H |].
  exact (abnormal_runs_write_nothing (CD := brokenCodec) (healthyWorld ramp 100)
           7 twoAttempts H).
Defined.

Lemma encoder_failure_panics_witness :
  let W := healthyWorld ramp 100 in
  let a := twoAttempts in
  (help a = false
   /\ checkArgs W (src a) (dest a) (force a) (argMax a) (argMin a)
                (argTarget a) (argLoops a) = true
   /\ readImage W (src a) = inr ramp
   /\ getFilesize W (src a) = (100, None)
   /\ argMin a <> argMax a
   /\ jpegEncode (Codec := brokenCodec) (convertToGray (CD := brokenCodec) ramp)
                 (probe (initialState a 100)) = inl "encode failed"%string)
  /\ main (CD := brokenCodec) W 7 a
     = ([PrintOriginalSize 100], Panicked "Error when comparing images").
Proof.
  intros W a.
  assert (H1 : help a = false) by reflexivity.
  assert (H2 : checkArgs W (src a) (dest a) (force a) (argMax a) (argMin a)
                         (argTarget a) (argLoops a) = true)
    by (vm_compute; reflexivity).
  assert (H3 : readImage W (src a) = inr ramp) by reflexivity.
  assert (H4 : getFilesize W (src a) = (100, None)) by reflexivity.
  assert (H5 : argMin a <> argMax a) by (vm_compute; congruence).
  assert (H6 : jpegEncode (Codec := brokenCodec)
                 (convertToGray (CD := brokenCodec) ramp)
                 (probe (initialState a 100)) = inl "encode failed"%string)
    by reflexivity.
  split; [exact (conj H1 (conj H2 (conj H3 (conj H4 (conj H5 H6))))) |].
  exact (encoder_failure_panics (CD := brokenCodec) W 6 a ramp 100
           "encode failed"%string H1 H2 H3 H4 H5 H6).
Defined.

Lemma final_report_is_an_attempt_or_zero_witness :
  let W := healthyWorld ramp 100 in
  let a := twoAttempts in
  (help a = false
   /\ checkArgs W (src a) (dest a) (force a) (argMax a) (argMin a)
                (argTarget a) (argLoops a) = true
   /\ readImage W (src a) = inr ramp
   /\ getFilesize W (src a) = (100, None)
   /\ 0 <= 100
   /\ In (67, 50) (finalLines (fst (main (CD := goodCodec) W 7 a))))
  /\ (67 = 0
      \/ exists n, In (n, 67, 50)
                      (attemptLines (fst (main (CD := goodCodec) W 7 a)))).
Proof.
  intros W a.
  assert (H1 : help a = false) by reflexivity.
  assert (H2 : checkArgs W (src a) (dest a) (force a) (argMax a) (argMin a)
                         (argTarget a) (argLoops a) = true)
    by (vm_compute; reflexivity).
  assert (H3 : readImage W (src a) = inr ramp) by reflexivity.
  assert (H4 : getFilesize W (src a) = (100, None)) by reflexivity.
  assert (H5 : 0 <= 100) by lia.
  assert (H6 : In (67, 50) (finalLines (fst (main (CD := goodCodec) W 7 a))))
    by (vm_compute; left; reflexivity).
  split; [exact (conj H1 (conj H2 (conj H3 (conj H4 (conj H5 H6))))) |].
  exact (final_report_is_an_attempt_or_zero (CD := goodCodec) W 7 a ramp 100
           67 50 H1 H2 H3 H4 H5 H6).
Defined.

Lemma checkArgs_accepts_iff_witness :
  let W := healthyWorld ramp 100 in
  let a := twoAttempts in
  checkArgs W (src a) (dest a) (force a) (argMax a) (argMin a) (argTarget a)
            (argLoops a) = true
  /\ (statNotExist W (src a) = false
      /\ (force a = true \/ statOk W (dest a) = false)
      /\ String.eqb (dest a) "" = false
      /\ 1 <= argMax a <= 100
      /\ 0 <= argMin a <= 99
      /\ f_leb (argTarget a) zero = false
      /\ f_ltb (f_ofZ 1) (argTarget a) = false
      /\ 0 < argLoops a).
Proof.
  intros W a.
  assert (H : checkArgs W (src a) (dest a) (force a) (argMax a) (argMin a)
                        (argTarget a) (argLoops a) = true)
    by (vm_compute; reflexivity).
  split; [exact H |].
  exact (proj1 (checkArgs_accepts_iff W (src a) (dest a) (force a) (argMax a)
                  (argMin a) (argTarget a) (argLoops a)) H).
Defined.
